(** * The launcher's self-update subsystem: release discovery and installation

    A shallow embedding of [launcher/update/update-discovery.cxx] and
    [launcher/update/update-installer.cxx].  Strings are [string], the
    filesystem is a finite map from paths to nodes, and every call into
    [std::filesystem] that reports through an [error_code] returns that code
    next to the new filesystem.

    What the model takes for granted: paths are POSIX paths; a coroutine is
    the function it computes; log lines are left out.  [Fs] and [Installer]
    describe a host on which a call that reports an error has changed
    nothing and the queries [fs::exists] and [fs::is_directory] always
    answer.  [Precise] gives that up: there the two queries throw when the
    status of a path cannot be read, as the overloads the sources call do,
    and a copy that fails may have written part of its destination. *)

From Stdlib Require Import String Ascii List Bool Arith Lia.
From stdpp Require Import base option list strings gmap.

Local Open Scope string_scope.

(** ** [std::string] operations used by the sources *)

Module Str.

(** [s.find (sub)]: position of the first occurrence, [None] for [npos]. *)
Definition find (sub s : string) : option nat := String.index 0 sub s.

(** [s.substr (pos, n)]. *)
Definition substr (pos n : nat) (s : string) : string := String.substring pos n s.

(** [s.empty ()]. *)
Definition empty (s : string) : bool := if decide (s = "") then true else false.

(** What the comparisons on [find] are meant to decide. *)
Definition contains (sub s : string) : Prop :=
  exists pre post, s = pre +:+ sub +:+ post.

Definition starts_with (p s : string) : Prop :=
  exists post, s = p +:+ post.

End Str.

(** ** Release discovery *)

Module Discovery.

(** Collaborators whose code lives in headers outside the two sources: the
    version model and the platform probe. *)
Class VersionModel := {
  launcher_version : Type;
  (** the value of a default-constructed [launcher_version] *)
  launcher_version_init : launcher_version;
  parse_launcher_version : string -> option launcher_version
}.

(** Modelled from the spec: the enumerators of [platform_type] are declared
    in a header that is not part of the sources; the switch in
    [find_platform_asset] names [windows_x64], [linux_x64] and [unknown] and
    has a [default] branch, which [other_platform] stands for. *)
Inductive platform_type :=
| unknown
| windows_x64
| linux_x64
| other_platform (tag : nat).

Record asset_type := {
  a_name : string;
  a_browser_download_url : string;
  a_size : N
}.

Record release_type := {
  r_tag_name : string;
  r_html_url : string;
  r_body : string;
  r_draft : bool;
  r_prerelease : bool;
  r_assets : list asset_type
}.

(** A thrown [std::exception], kept as its [what ()]. *)
Record exception := Exception { what : string }.

Section discovery.
Context {VM : VersionModel}.

Record update_info := {
  ui_version : launcher_version;
  ui_tag_name : string;
  ui_release_url : string;
  ui_prerelease : bool;
  ui_body : string;
  ui_asset_url : string;
  ui_asset_name : string;
  ui_asset_size : N
}.

(** [update_info ()], the empty sentinel every early return hands back. *)
Definition update_info_init : update_info :=
  {| ui_version := launcher_version_init;
     ui_tag_name := "";
     ui_release_url := "";
     ui_prerelease := false;
     ui_body := "";
     ui_asset_url := "";
     ui_asset_name := "";
     ui_asset_size := 0%N |}.

(** The suffix and extension the switch assigns to [s] and [e]. *)
Definition platform_profile (p : platform_type) : option (string * string) :=
  match p with
  | windows_x64 => Some ("x86_64-windows", ".zip")
  | linux_x64 => Some ("x86_64-linux-glibc", ".tar.xz")
  | _ => None
  end.

(** The condition of the [if] in the asset loop. *)
Definition asset_matches (s e : string) (a : asset_type) : bool :=
  bool_decide (Str.find s (a_name a) <> None) &&
  bool_decide (Str.find e (a_name a) <> None) &&
  bool_decide (Str.find "launcher-" (a_name a) = Some 0).

Fixpoint scan_assets (s e : string) (l : list asset_type) : option asset_type :=
  match l with
  | [] => None
  | a :: l' => if asset_matches s e a then Some a else scan_assets s e l'
  end.

(** [find_platform_asset (r)]; [p] is what [current_platform ()] answers. *)
Definition find_platform_asset (p : platform_type) (r : release_type)
  : option asset_type :=
  match p with
  | unknown => None
  | _ =>
      match platform_profile p with
      | Some (s, e) => scan_assets s e (r_assets r)
      | None => None
      end
  end.

(** The platform suffixes [parse_asset_version] knows, in its order. *)
Definition sufs : list string :=
  ["-x86_64-windows"; "-x86_64-linux-glibc"].

(** The loop over [sufs]: the position of the first listed suffix that
    occurs in [n]. *)
Fixpoint suffix_pos (l : list string) (n : string) : option nat :=
  match l with
  | [] => None
  | s :: l' =>
      match Str.find s n with
      | Some pos => Some pos
      | None => suffix_pos l' n
      end
  end.

(** [parse_asset_version (n)]. *)
Definition parse_asset_version (n : string) : option launcher_version :=
  let p := "launcher-" in
  if bool_decide (Str.find p n <> Some 0) then None
  else
    let b := String.length p in
    match suffix_pos sufs n with
    | None => None
    | Some e =>
        if (e <=? b)%nat then None
        else parse_launcher_version (Str.substr b (e - b) n)
    end.

(** The assignments that end [release_to_update_info]. *)
Definition fill_update_info (r : release_type) (a : asset_type)
    (v : launcher_version) : update_info :=
  {| ui_version := v;
     ui_tag_name := r_tag_name r;
     ui_release_url := r_html_url r;
     ui_prerelease := r_prerelease r;
     ui_body := r_body r;
     ui_asset_url := a_browser_download_url a;
     ui_asset_name := a_name a;
     ui_asset_size := a_size a |}.

(** [release_to_update_info (r)]. *)
Definition release_to_update_info (p : platform_type) (r : release_type)
  : update_info :=
  match find_platform_asset p r with
  | None => update_info_init
  | Some a =>
      match parse_asset_version (a_name a) with
      | Some v => fill_update_info r a v
      | None =>
          match parse_launcher_version (r_tag_name r) with
          | Some v => fill_update_info r a v
          | None => update_info_init
          end
      end
  end.

(** The [for] loop of [fetch_latest_release]: [Some b] when it leaves
    through [break] with [b] set, [None] when [b] stays [nullptr]. *)
Fixpoint pick_release (include_prerelease_ : bool) (rs : list release_type)
  : option release_type :=
  match rs with
  | [] => None
  | i :: rs' =>
      if r_draft i then pick_release include_prerelease_ rs'
      else if include_prerelease_ || negb (r_prerelease i) then Some i
      else pick_release include_prerelease_ rs'
  end.

(** The registry client: [get_releases (owner, repo, limit)] either throws
    or returns the batch, newest first. *)
Definition registry := string -> string -> nat -> exception + list release_type.

(** [fetch_latest_release (o, r)]. *)
Definition fetch_latest_release (api_ : registry) (p : platform_type)
    (include_prerelease_ : bool) (o r : string) : exception + update_info :=
  match api_ o r 20 with
  | inl e => inl e
  | inr rs =>
      match rs with
      | [] => inr update_info_init
      | _ =>
          match pick_release include_prerelease_ rs with
          | None => inr update_info_init
          | Some b => inr (release_to_update_info p b)
          end
      end
  end.

(** The filter in the words of the specification: a release is eligible
    when it is no draft and, unless pre-releases are included, no
    pre-release. *)
Definition eligible (include_prerelease_ : bool) (i : release_type) : bool :=
  negb (r_draft i) && (include_prerelease_ || negb (r_prerelease i)).

End discovery.

End Discovery.

(** ** The filesystem the installer runs against *)

Module Fs.

(** The conditions an [error_code] can carry. *)
Inductive errc :=
| ENOENT | EACCES | EBUSY | EEXIST | EISDIR | ENOTDIR | ENOTEMPTY
| EINVAL | EXDEV | ENOSPC | EIO.

(** [ec.message ()]. *)
Definition message (e : errc) : string :=
  match e with
  | ENOENT => "No such file or directory"
  | EACCES => "Permission denied"
  | EBUSY => "Device or resource busy"
  | EEXIST => "File exists"
  | EISDIR => "Is a directory"
  | ENOTDIR => "Not a directory"
  | ENOTEMPTY => "Directory not empty"
  | EINVAL => "Invalid argument"
  | EXDEV => "Invalid cross-device link"
  | ENOSPC => "No space left on device"
  | EIO => "Input/output error"
  end.

(** A regular file is its bytes and whether an execute bit is set. *)
Inductive node :=
| File (data : string) (exec : bool)
| Dir.

#[global] Instance errc_eq_dec : EqDecision errc.
Proof. solve_decision. Defined.

#[global] Instance node_eq_dec : EqDecision node.
Proof. solve_decision. Defined.

(** The host as the installer sees it.  [files] is the directory tree,
    flattened: a path is present when it is a key.  [faults] is what the
    environment will do to the coming mutating calls, one entry per call in
    the order they are made: [Some e] makes that call fail with [e] and
    change nothing (a locked image, a scanner holding the file, a full
    disk), [None] lets it run; past the end of the list nothing is forced.
    [self_exe] is what the native query for the running image answers
    ([/proc/self/exe], [GetModuleFileNameA]), [cwd] what
    [fs::current_path (ec)] answers; [None] is failure. *)
Record world := World {
  files : gmap string node;
  faults : list (option errc);
  self_exe : option string;
  cwd : option string
}.

Definition with_files (m : gmap string node) (w : world) : world :=
  {| files := m; faults := faults w; self_exe := self_exe w; cwd := cwd w |}.

Definition next_fault (w : world) : option errc * world :=
  match faults w with
  | [] => (None, w)
  | f :: fs =>
      (f, {| files := files w; faults := fs; self_exe := self_exe w; cwd := cwd w |})
  end.

(** [q] lies below directory [d]. *)
Definition under (d q : string) : bool := String.prefix (d +:+ "/") q.

Definition subtree (d : string) (m : gmap string node) : gmap string node :=
  filter (fun kv => under d kv.1 = true) m.

Definition outside (d : string) (m : gmap string node) : gmap string node :=
  filter (fun kv => under d kv.1 = false) m.

Definition has_children (d : string) (m : gmap string node) : bool :=
  bool_decide (subtree d m <> ∅).

(** [fs::exists (p)]. *)
Definition exists_ (p : string) (w : world) : bool :=
  bool_decide (p <> "") && bool_decide (is_Some (files w !! p)).

(** [fs::is_directory (p)]. *)
Definition is_directory (p : string) (w : world) : bool :=
  bool_decide (p <> "") && bool_decide (files w !! p = Some Dir).

Definition is_regular (n : node) : bool :=
  match n with File _ _ => true | Dir => false end.

(** [fs::remove (p, ec)]: a missing [p] is no error, a directory must be
    empty. *)
Definition remove (p : string) (w : world) : option errc * world :=
  match next_fault w with
  | (Some e, w1) => (Some e, w1)
  | (None, w1) =>
      if negb (exists_ p w1) then (None, w1)
      else if is_directory p w1 && has_children p (files w1)
           then (Some ENOTEMPTY, w1)
           else (None, with_files (delete p (files w1)) w1)
  end.

(** [fs::remove_all (p, ec)]. *)
Definition remove_all (p : string) (w : world) : option errc * world :=
  match next_fault w with
  | (Some e, w1) => (Some e, w1)
  | (None, w1) =>
      if negb (exists_ p w1) then (None, w1)
      else (None, with_files (delete p (outside p (files w1))) w1)
  end.

(** Where an entry below [old] lands when [old] becomes [new]. *)
Definition rebase (old new q : string) : string :=
  new +:+ String.substring (String.length old)
                           (String.length q - String.length old) q.

Definition move_tree (old new : string) (m : gmap string node)
  : gmap string node :=
  let moved : gmap string node :=
    list_to_map (map (fun kv : string * node => (rebase old new kv.1, kv.2))
                     (map_to_list (subtree old m))) in
  <[new := Dir]> (moved ∪ delete old (outside old (outside new m))).

(** [fs::rename (old, new, ec)] with the POSIX rules: the source must
    exist, a file replaces a file, a directory replaces an empty
    directory and takes its entries along. *)
Definition rename (old new : string) (w : world) : option errc * world :=
  match next_fault w with
  | (Some e, w1) => (Some e, w1)
  | (None, w1) =>
      if negb (exists_ old w1) || bool_decide (new = "") then (Some ENOENT, w1)
      else if bool_decide (old = new) then (None, w1)
      else
        match files w1 !! old, files w1 !! new with
        | Some (File d x), Some Dir => (Some EISDIR, w1)
        | Some (File d x), _ =>
            (None, with_files (<[new := File d x]> (delete old (files w1))) w1)
        | Some Dir, Some (File _ _) => (Some ENOTDIR, w1)
        | Some Dir, _ =>
            if has_children new (files w1) then (Some ENOTEMPTY, w1)
            else if under old new then (Some EINVAL, w1)
            else (None, with_files (move_tree old new (files w1)) w1)
        | None, _ => (Some ENOENT, w1)
        end
  end.

(** [fs::copy_file (from, to, fs::copy_options::overwrite_existing, ec)]. *)
Definition copy_file (from to : string) (w : world) : option errc * world :=
  match next_fault w with
  | (Some e, w1) => (Some e, w1)
  | (None, w1) =>
      if negb (exists_ from w1) || bool_decide (to = "") then (Some ENOENT, w1)
      else
        match files w1 !! from, files w1 !! to with
        | Some (File d x), Some Dir => (Some EISDIR, w1)
        | Some (File d x), _ =>
            if bool_decide (from = to) then (Some EEXIST, w1)
            else (None, with_files (<[to := File d x]> (files w1)) w1)
        | _, _ => (Some EINVAL, w1)
        end
  end.

(** [fs::permissions (p, owner_exec | group_exec | others_exec,
    fs::perm_options::add, ec)]. *)
Definition permissions_add_exec (p : string) (w : world) : option errc * world :=
  match next_fault w with
  | (Some e, w1) => (Some e, w1)
  | (None, w1) =>
      if negb (exists_ p w1) then (Some ENOENT, w1)
      else
        match files w1 !! p with
        | Some (File d _) => (None, with_files (<[p := File d true]> (files w1)) w1)
        | _ => (None, w1)
        end
  end.

(** [fs::create_directories (p, ec)]. *)
Definition create_directories (p : string) (w : world) : option errc * world :=
  match next_fault w with
  | (Some e, w1) => (Some e, w1)
  | (None, w1) =>
      if bool_decide (p = "") then (Some ENOENT, w1)
      else
        match files w1 !! p with
        | Some (File _ _) => (Some EEXIST, w1)
        | Some Dir => (None, w1)
        | None => (None, with_files (<[p := Dir]> (files w1)) w1)
        end
  end.

(** Creating or truncating a regular file and writing [data] to it, as the
    unzip library and the transport do. *)
Definition write_file (p data : string) (w : world) : option errc * world :=
  match next_fault w with
  | (Some e, w1) => (Some e, w1)
  | (None, w1) =>
      if bool_decide (p = "") then (Some ENOENT, w1)
      else
        match files w1 !! p with
        | Some Dir => (Some EISDIR, w1)
        | Some (File _ x) => (None, with_files (<[p := File data x]> (files w1)) w1)
        | None => (None, with_files (<[p := File data false]> (files w1)) w1)
        end
  end.

(** What [fs::recursive_directory_iterator (d)] yields. *)
Definition entries_below (d : string) (w : world) : list (string * node) :=
  map_to_list (subtree d (files w)).

(** The part of [s] after the last [c], if [c] occurs. *)
Fixpoint after_last (c : ascii) (s : string) : option string :=
  match s with
  | EmptyString => None
  | String x s' =>
      match after_last c s' with
      | Some r => Some r
      | None => if Ascii.eqb x c then Some s' else None
      end
  end.

(** [p.filename ()]. *)
Definition filename (p : string) : string :=
  match after_last "/"%char p with
  | Some f => f
  | None => p
  end.

(** [p.extension ()]: from the last dot of the file name on, unless that dot
    leads the name or the name is [.] or [..]. *)
Definition extension (p : string) : string :=
  let f := filename p in
  if bool_decide (f = ".") || bool_decide (f = "..") then ""
  else
    match f with
    | EmptyString => ""
    | String _ f' =>
        match after_last "."%char f' with
        | Some r => String "."%char r
        | None => ""
        end
    end.

Definition ends_with_slash (d : string) : bool :=
  match after_last "/"%char d with
  | Some "" => true
  | _ => false
  end.

(** [d / n]. *)
Definition join (d n : string) : string :=
  if String.prefix "/" n then n
  else if bool_decide (d = "") then n
  else if ends_with_slash d then d +:+ n
  else d +:+ "/" +:+ n.

(** [tolower] in the C locale. *)
Definition tolower (c : ascii) : ascii :=
  let n := nat_of_ascii c in
  if (65 <=? n)%nat && (n <=? 90)%nat then ascii_of_nat (n + 32) else c.

Fixpoint lowercase (s : string) : string :=
  match s with
  | EmptyString => EmptyString
  | String c s' => String (tolower c) (lowercase s')
  end.

End Fs.

(** ** The installer *)

Module Installer.
Import Fs Discovery.

Record update_result := {
  success : bool;
  installed_path : string;
  backup_path : string;
  error_message : string
}.

(** A default-constructed [update_result]. *)
Definition update_result_init : update_result :=
  {| success := false; installed_path := ""; backup_path := ""; error_message := "" |}.

Definition with_installed_path (p : string) (r : update_result) : update_result :=
  {| success := success r; installed_path := p;
     backup_path := backup_path r; error_message := error_message r |}.

Definition with_backup_path (p : string) (r : update_result) : update_result :=
  {| success := success r; installed_path := installed_path r;
     backup_path := p; error_message := error_message r |}.

Definition with_error_message (m : string) (r : update_result) : update_result :=
  {| success := success r; installed_path := installed_path r;
     backup_path := backup_path r; error_message := m |}.

Definition with_success (b : bool) (r : update_result) : update_result :=
  {| success := b; installed_path := installed_path r;
     backup_path := backup_path r; error_message := error_message r |}.

(** The members of [update_installer] the pipeline reads and writes.
    [cleanup_calls] is not a member of the class: it is a ghost counter that
    [cleanup] alone increments, so that a statement can say that [cleanup]
    ran.  The progress callback only feeds the user interface and is left
    out. *)
Record update_installer := {
  download_dir_ : string;
  temp_files_ : list string;
  cleanup_calls : nat
}.

(** [temp_files_.push_back (p)]. *)
Definition push_back (p : string) (u : update_installer) : update_installer :=
  {| download_dir_ := download_dir_ u;
     temp_files_ := temp_files_ u ++ [p];
     cleanup_calls := cleanup_calls u |}.

(** One entry of an opened zip archive: the name [mz_zip_reader_file_stat]
    reports ([None] when it fails), what
    [mz_zip_reader_is_file_a_directory] answers, and the bytes
    [mz_zip_reader_extract_to_file] would write ([None] when the entry
    cannot be inflated). *)
Record zip_entry := {
  ze_stat : option string;
  ze_is_directory : bool;
  ze_data : option string
}.

(** What continues after a block of [replace_launcher]: falling through to
    the next block with the result so far, or [return r]. *)
Inductive flow :=
| Next (r : update_result)
| Return (r : update_result).

Definition dq : string := String (ascii_of_nat 34) EmptyString.

(** The part of [s] before the last [c], if [c] occurs. *)
Fixpoint before_last (c : ascii) (s : string) : option string :=
  match s with
  | EmptyString => None
  | String x s' =>
      match before_last c s' with
      | Some r => Some (String x r)
      | None => if Ascii.eqb x c then Some EmptyString else None
      end
  end.

(** [p.parent_path ()]. *)
Definition parent_path (p : string) : string :=
  match before_last "/"%char p with
  | Some EmptyString => "/"
  | Some d => d
  | None => ""
  end.

(** [update_installer::backup_path (p)]; the result field has the plain
    name. *)
Definition backup_path_of (p : string) : string := p +:+ ".backup".

Definition staging_path (p : string) : string := p +:+ ".new".

(** The names the extracted tree is searched for. *)
Definition bns : list string :=
  ["launcher"; "iw4x-launcher"; "launcher.exe"; "iw4x-launcher.exe"].

Section installer.
Context {VM : VersionModel}.

(** What the installer calls but does not define: the preprocessor's
    [_WIN32], [update_info::empty], the HTTP client, the zip reader and
    [system]. The transport either throws or returns; both leave a
    filesystem behind. *)
Class Collaborators := {
  win32 : bool;
  update_info_empty : update_info -> bool;
  http_download : string -> string -> world -> option exception * world;
  mz_zip_reader_init_file : string -> option (list zip_entry);
  system : string -> world -> Z * world
}.

Context {CO : Collaborators}.

Definition current_executable_path (w : world) : string :=
  match self_exe w with
  | Some p => p
  | None =>
      match cwd w with
      | Some c => c
      | None => ""
      end
  end.

(** [rollback (r)]. *)
Definition rollback (r : update_result) (w : world) : bool * world :=
  if Str.empty (backup_path r) || Str.empty (installed_path r) then (false, w)
  else
    match (if exists_ (installed_path r) w
           then remove (installed_path r) w else (None, w)) with
    | (Some _, w1) => (false, w1)
    | (None, w1) =>
        if exists_ (backup_path r) w1 then
          match rename (backup_path r) (installed_path r) w1 with
          | (Some _, w2) => (false, w2)
          | (None, w2) => (true, w2)
          end
        else (false, w1)
    end.

(** The body of the loop in [cleanup], with the [ec] it leaves. *)
Definition cleanup_entry (p : string) (w : world) : option errc * world :=
  if exists_ p w then
    if is_directory p w then remove_all p w else remove p w
  else (None, w).

Fixpoint sweep (l : list string) (w : world) : world :=
  match l with
  | [] => w
  | p :: l' => sweep l' (cleanup_entry p w).2
  end.

(** [cleanup ()]. *)
Definition cleanup (u : update_installer) (w : world) : update_installer * world :=
  ({| download_dir_ := download_dir_ u;
      temp_files_ := [];
      cleanup_calls := S (cleanup_calls u) |},
   sweep (temp_files_ u) w).

(** [download_archive (ui)]. *)
Definition download_archive (ui : update_info) (u : update_installer) (w : world)
  : (exception + string) * world :=
  let t := join (download_dir_ u) (ui_asset_name ui) in
  let w1 := (create_directories (download_dir_ u) w).2 in
  match http_download (ui_asset_url ui) t w1 with
  | (Some e, w2) => (inl e, w2)
  | (None, w2) => (inr t, w2)
  end.

(** The loop over the entries of an opened zip archive. *)
Fixpoint unzip_entries (d : string) (l : list zip_entry) (w : world)
  : option exception * world :=
  match l with
  | [] => (None, w)
  | en :: l' =>
      match ze_stat en with
      | None => unzip_entries d l' w
      | Some m_filename =>
          if ze_is_directory en then unzip_entries d l' w
          else
            let p := join d m_filename in
            let w1 := (create_directories (parent_path p) w).2 in
            match ze_data en with
            | None => (Some (Exception ("failed to extract: " +:+ m_filename)), w1)
            | Some data =>
                match write_file p data w1 with
                | (Some _, w2) =>
                    (Some (Exception ("failed to extract: " +:+ m_filename)), w2)
                | (None, w2) => unzip_entries d l' w2
                end
            end
      end
  end.

Definition extract_zip (ap d : string) (w : world) : option exception * world :=
  match files w !! ap with
  | Some (File data _) =>
      match mz_zip_reader_init_file data with
      | Some z => unzip_entries d z w
      | None => (Some (Exception "failed to open zip archive"), w)
      end
  | _ => (Some (Exception "failed to open zip archive"), w)
  end.

Definition extract_tar_xz (ap d : string) (w : world) : option exception * world :=
  let c := "tar -xJf " +:+ dq +:+ ap +:+ dq +:+ " -C " +:+ dq +:+ d +:+ dq in
  let '(r, w1) := system c w in
  if bool_decide (r <> 0%Z)
  then (Some (Exception "failed to extract tar.xz archive"), w1)
  else (None, w1).

(** The scan of the extracted tree for the first regular file with a
    known name. *)
Fixpoint find_binary (l : list (string * node)) : option string :=
  match l with
  | [] => None
  | (p, n) :: l' =>
      if negb (is_regular n) then find_binary l'
      else if bool_decide (filename p ∈ bns) then Some p
      else find_binary l'
  end.

(** What tells the three branches of [extract_launcher] apart. *)
Inductive archive_format := format_zip | format_tar_xz | format_unsupported.

Definition archive_format_of (ap : string) : archive_format :=
  let e := lowercase (extension ap) in
  let fn := filename ap in
  let t := (7 <? String.length fn)%nat &&
           bool_decide (Str.substr (String.length fn - 7) 7 fn = ".tar.xz") in
  if bool_decide (e = ".zip") then format_zip
  else if t then format_tar_xz
  else format_unsupported.

(** [extract_launcher (ap, ui)]. *)
Definition extract_launcher (ap : string) (ui : update_info)
    (u : update_installer) (w : world)
  : (exception + string) * update_installer * world :=
  let d := join (download_dir_ u) "launcher_update_extract" in
  let w1 := (create_directories d w).2 in
  let u1 := push_back d u in
  let e := lowercase (extension ap) in
  let '(thrown, w2) :=
    match archive_format_of ap with
    | format_zip => extract_zip ap d w1
    | format_tar_xz => extract_tar_xz ap d w1
    | format_unsupported =>
        (Some (Exception ("unsupported archive format: " +:+ e)), w1)
    end in
  match thrown with
  | Some ex => (inl ex, u1, w2)
  | None =>
      if is_directory d w2 then
        match find_binary (entries_below d w2) with
        | Some p => (inr p, u1, w2)
        | None => (inl (Exception "launcher binary not found in archive"), u1, w2)
        end
      else
        (inl (Exception ("filesystem error: directory iterator cannot open directory: "
                         +:+ message ENOENT)), u1, w2)
  end.

(** [replace_launcher], first block: copy the new binary to the staging
    path and mark it executable. *)
Definition stage_new_binary (nb t : string) (r : update_result) (w : world)
  : flow * world :=
  let s := staging_path t in
  match copy_file nb s w with
  | (Some ec, w1) =>
      (Return (with_error_message ("failed to copy new binary: " +:+ message ec) r), w1)
  | (None, w1) =>
      (Next r, if win32 then w1 else (permissions_add_exec s w1).2)
  end.

(** Second block: move the current executable to the backup path. *)
Definition backup_current (t : string) (r : update_result) (w : world)
  : flow * world :=
  let b := backup_path_of t in
  let s := staging_path t in
  if exists_ t w then
    let w1 := if exists_ b w then (remove b w).2 else w in
    match rename t b w1 with
    | (None, w2) => (Next (with_backup_path b r), w2)
    | (Some _, w2) =>
        match copy_file t b w2 with
        | (Some ec, w3) =>
            (Return (with_error_message
                       ("failed to backup current launcher: " +:+ message ec) r),
             (remove s w3).2)
        | (None, w3) => (Next (with_backup_path b r), w3)
        end
    end
  else (Next r, w).

(** Third block: move the staged binary into place. *)
Definition install_staged (t : string) (r : update_result) (w : world)
  : update_result * world :=
  let b := backup_path_of t in
  let s := staging_path t in
  match rename s t w with
  | (None, w1) => (with_success true r, w1)
  | (Some _, w1) =>
      match copy_file s t w1 with
      | (Some ec, w2) =>
          let r' := with_error_message
                      ("failed to install new launcher: " +:+ message ec) r in
          (r', if negb (Str.empty (backup_path r')) && exists_ b w2
               then (rename b t w2).2 else w2)
      | (None, w2) => (with_success true r, (remove s w2).2)
      end
  end.

(** [replace_launcher (nb, t)]. *)
Definition replace_launcher (nb t : string) (w : world) : update_result * world :=
  let r := with_installed_path t update_result_init in
  match stage_new_binary nb t r w with
  | (Return r', w1) => (r', w1)
  | (Next r1, w1) =>
      match backup_current t r1 w1 with
      | (Return r', w2) => (r', w2)
      | (Next r2, w2) => install_staged t r2 w2
      end
  end.

(** A backup was recorded in this call: the first block fell through, [T]
    existed, and the second block fell through as well, which is the one
    way to reach [r.backup_path = b]. *)
Definition backup_recorded (nb t : string) (w : world) : Prop :=
  exists r1 w1 r2 w2,
    stage_new_binary nb t (with_installed_path t update_result_init) w = (Next r1, w1) /\
    exists_ t w1 = true /\
    backup_current t r1 w1 = (Next r2, w2).

(** The [catch (const exception& e)] handler of [install]. *)
Definition install_catch (e : exception) (r : update_result)
    (u : update_installer) (w : world)
  : update_result * update_installer * world :=
  let r' := with_error_message (what e) (with_success false r) in
  let '(u', w') := cleanup u w in
  (r', u', w').

(** [install (ui)]. *)
Definition install (ui : update_info) (u : update_installer) (w : world)
  : update_result * update_installer * world :=
  let r := update_result_init in
  if update_info_empty ui || Str.empty (ui_asset_url ui)
  then (with_error_message "invalid update info" r, u, w)
  else
    match download_archive ui u w with
    | (inl e, w1) => install_catch e r u w1
    | (inr a, w1) =>
        let u1 := push_back a u in
        match extract_launcher a ui u1 w1 with
        | (inl e, u2, w2) => install_catch e r u2 w2
        | (inr b, u2, w2) =>
            let u3 := push_back b u2 in
            if negb (exists_ b w2) then
              let '(u4, w3) := cleanup u3 w2 in
              (with_error_message "extraction failed: launcher binary not found" r,
               u4, w3)
            else
              let t := current_executable_path w2 in
              let '(r1, w3) := replace_launcher b t w2 in
              if negb (success r1) then
                let '(_, w4) := rollback r1 w3 in
                let '(u4, w5) := cleanup u3 w4 in
                (r1, u4, w5)
              else
                let '(u4, w4) := cleanup u3 w3 in
                (r1, u4, w4)
        end
    end.

End installer.

End Installer.

(** ** Paths that name one place *)

Module Paths.
Import Fs.





End Paths.

(** ** The other entry points of discovery *)

Module Queries.
Import Discovery.

Section queries.
Context {VM : VersionModel}.

(** What [check_for_update] and [fetch_release_by_tag] use from the headers:
    [operator>] on [launcher_version], [update_info::empty] and the registry's
    [release::empty]. *)
Class Headers := {
  version_gt : launcher_version -> launcher_version -> bool;
  ui_empty : update_info -> bool;
  rel_empty : release_type -> bool
}.

Context {HD : Headers}.

(** [check_for_update (o, r, v)]. *)
Definition check_for_update (api_ : registry) (p : platform_type)
    (include_prerelease_ : bool) (o r : string) (v : launcher_version)
  : exception + update_info :=
  match fetch_latest_release api_ p include_prerelease_ o r with
  | inl e => inl e
  | inr ui =>
      if ui_empty ui then inr update_info_init
      else if version_gt (ui_version ui) v then inr ui
      else inr update_info_init
  end.

(** The registry client's [get_release_by_tag (owner, repo, tag)]. *)
Definition tag_registry := string -> string -> string -> exception + release_type.

(** [fetch_release_by_tag (o, r, t)]. *)
Definition fetch_release_by_tag (api_ : tag_registry) (p : platform_type)
    (o r t : string) : exception + update_info :=
  match api_ o r t with
  | inl e => inl e
  | inr rel =>
      if rel_empty rel then inr update_info_init
      else inr (release_to_update_info p rel)
  end.

End queries.

End Queries.

(** ** The pipeline on a host that can do worse *)

(** [Fs] and [Installer] describe a host on which a status query always
    answers and a copy that fails has written nothing.  Here both are given
    up: [fs::exists (p)] and [fs::is_directory (p)] are the overloads
    without [error_code] that the sources call, which throw when the status
    of [p] cannot be read, and a copy that fails may have opened its
    destination already. *)
Module Precise.
Import Fs Discovery Installer.

(** [std::filesystem::filesystem_error (what_arg, p, ec)], kept as its
    [what ()] in the wording of libstdc++; [fs::status (p)] throws it with
    [what_arg] = [status]. *)
Definition filesystem_error (what_arg p : string) (e : errc) : exception :=
  Exception ("filesystem error: " +:+ what_arg +:+ ": " +:+ message e
             +:+ " [" +:+ p +:+ "]").

(** The two conditions [fs::status (p, ec)] reports as
    [file_type::not_found] instead of failing. *)
Definition not_found (e : errc) : bool :=
  match e with
  | ENOENT | ENOTDIR => true
  | _ => false
  end.

(** What the host adds to [world].  [status_error p w] is the error the
    status query on [p] runs into in [w], if any: a directory on the way
    that denies search, a medium that stopped answering.  [torn e w] tells
    how far a copy that is made to fail with [e] in [w] had come: [None]
    when it failed before its destination was opened, [Some (k, x)] when the
    destination had been created or truncated, held the first [k] bytes of
    the source and had [x] for its execute bit. *)
Class Host := {
  status_error : string -> world -> option errc;
  torn : errc -> world -> option (nat * bool)
}.

Section precise.
Context {VM : VersionModel} {CO : Collaborators} {HO : Host}.

(** The error that makes [fs::status (p)] throw. *)
Definition status_fails (p : string) (w : world) : option errc :=
  match status_error p w with
  | Some e => if not_found e then None else Some e
  | None => None
  end.


(** No coming call is made to fail. *)
Definition unforced (w : world) : Prop := Forall (fun f => f = None) (faults w).

(** [fs::exists (p)]. *)
Definition exists_ (p : string) (w : world) : exception + bool :=
  match status_fails p w with
  | Some e => inl (filesystem_error "status" p e)
  | None => inr (Fs.exists_ p w)
  end.

(** [fs::is_directory (p)]. *)
Definition is_directory (p : string) (w : world) : exception + bool :=
  match status_fails p w with
  | Some e => inl (filesystem_error "status" p e)
  | None => inr (Fs.is_directory p w)
  end.

(** [fs::copy_file (from, to, fs::copy_options::overwrite_existing, ec)].
    The library checks both paths, opens [from], opens [to] creating or
    truncating it, and then moves the bytes; a failure of the first steps
    leaves [to] as it was, a later one leaves what had been written. *)
Definition copy_file (from to : string) (w : world) : option errc * world :=
  match next_fault w with
  | (Some e, w1) =>
      (Some e,
       match files w1 !! from, torn e w1 with
       | Some (File d _), Some (k, x) =>
           if negb (Fs.exists_ from w1) || bool_decide (to = "")
              || bool_decide (from = to)
              || bool_decide (files w1 !! to = Some Dir)
           then w1
           else with_files (<[to := File (Str.substr 0 k d) x]> (files w1)) w1
       | _, _ => w1
       end)
  | (None, _) => Fs.copy_file from to w
  end.

(** [rollback (r)]. *)
Definition rollback (r : update_result) (w : world) : (exception + bool) * world :=
  if Str.empty (backup_path r) || Str.empty (installed_path r) then (inr false, w)
  else
    match exists_ (installed_path r) w with
    | inl ex => (inl ex, w)
    | inr present =>
        match (if present then remove (installed_path r) w else (None, w)) with
        | (Some _, w1) => (inr false, w1)
        | (None, w1) =>
            match exists_ (backup_path r) w1 with
            | inl ex => (inl ex, w1)
            | inr true =>
                match rename (backup_path r) (installed_path r) w1 with
                | (Some _, w2) => (inr false, w2)
                | (None, w2) => (inr true, w2)
                end
            | inr false => (inr false, w1)
            end
        end
    end.

(** The body of the loop in [cleanup]: what it throws, or the [ec] it
    leaves. *)
Definition cleanup_entry (p : string) (w : world)
  : (exception + option errc) * world :=
  match exists_ p w with
  | inl ex => (inl ex, w)
  | inr false => (inr None, w)
  | inr true =>
      match is_directory p w with
      | inl ex => (inl ex, w)
      | inr true => let '(ec, w1) := remove_all p w in (inr ec, w1)
      | inr false => let '(ec, w1) := remove p w in (inr ec, w1)
      end
  end.

(** The loop of [cleanup]: it ends at the first entry that throws. *)
Fixpoint sweep (l : list string) (w : world) : option exception * world :=
  match l with
  | [] => (None, w)
  | p :: l' =>
      match cleanup_entry p w with
      | (inl ex, w1) => (Some ex, w1)
      | (inr _, w1) => sweep l' w1
      end
  end.

(** [cleanup ()]: [temp_files_.clear ()] is reached only when the loop has
    come to its end. *)
Definition cleanup (u : update_installer) (w : world)
  : (exception + unit) * update_installer * world :=
  match sweep (temp_files_ u) w with
  | (Some ex, w1) =>
      (inl ex,
       {| download_dir_ := download_dir_ u;
          temp_files_ := temp_files_ u;
          cleanup_calls := S (cleanup_calls u) |}, w1)
  | (None, w1) =>
      (inr tt,
       {| download_dir_ := download_dir_ u;
          temp_files_ := [];
          cleanup_calls := S (cleanup_calls u) |}, w1)
  end.

(** [replace_launcher], first block. *)
Definition stage_new_binary (nb t : string) (r : update_result) (w : world)
  : flow * world :=
  let s := staging_path t in
  match copy_file nb s w with
  | (Some ec, w1) =>
      (Return (with_error_message ("failed to copy new binary: " +:+ message ec) r), w1)
  | (None, w1) =>
      (Next r, if win32 then w1 else (permissions_add_exec s w1).2)
  end.

(** Second block. *)
Definition backup_current (t : string) (r : update_result) (w : world)
  : (exception + flow) * world :=
  let b := backup_path_of t in
  let s := staging_path t in
  match exists_ t w with
  | inl ex => (inl ex, w)
  | inr false => (inr (Next r), w)
  | inr true =>
      match exists_ b w with
      | inl ex => (inl ex, w)
      | inr present =>
          let w1 := if present then (remove b w).2 else w in
          match rename t b w1 with
          | (None, w2) => (inr (Next (with_backup_path b r)), w2)
          | (Some _, w2) =>
              match copy_file t b w2 with
              | (Some ec, w3) =>
                  (inr (Return (with_error_message
                                  ("failed to backup current launcher: "
                                   +:+ message ec) r)),
                   (remove s w3).2)
              | (None, w3) => (inr (Next (with_backup_path b r)), w3)
              end
          end
      end
  end.

(** Third block. *)
Definition install_staged (t : string) (r : update_result) (w : world)
  : (exception + update_result) * world :=
  let b := backup_path_of t in
  let s := staging_path t in
  match rename s t w with
  | (None, w1) => (inr (with_success true r), w1)
  | (Some _, w1) =>
      match copy_file s t w1 with
      | (Some ec, w2) =>
          let r' := with_error_message
                      ("failed to install new launcher: " +:+ message ec) r in
          if Str.empty (backup_path r') then (inr r', w2)
          else
            match exists_ b w2 with
            | inl ex => (inl ex, w2)
            | inr true => (inr r', (rename b t w2).2)
            | inr false => (inr r', w2)
            end
      | (None, w2) => (inr (with_success true r), (remove s w2).2)
      end
  end.

(** [replace_launcher (nb, t)]. *)
Definition replace_launcher (nb t : string) (w : world)
  : (exception + update_result) * world :=
  let r := with_installed_path t update_result_init in
  match stage_new_binary nb t r w with
  | (Return r', w1) => (inr r', w1)
  | (Next r1, w1) =>
      match backup_current t r1 w1 with
      | (inl ex, w2) => (inl ex, w2)
      | (inr (Return r'), w2) => (inr r', w2)
      | (inr (Next r2), w2) => install_staged t r2 w2
      end
  end.

(** The [catch (const exception& e)] handler of [install]; what [cleanup]
    throws there leaves [install]. *)
Definition install_catch (e : exception) (r : update_result)
    (u : update_installer) (w : world)
  : (exception + update_result) * update_installer * world :=
  let r' := with_error_message (what e) (with_success false r) in
  match cleanup u w with
  | (inl ex, u', w') => (inl ex, u', w')
  | (inr _, u', w') => (inr r', u', w')
  end.

(** A [cleanup ()] inside the [try] block followed by [co_return r]. *)
Definition cleanup_and_return (r : update_result) (u : update_installer) (w : world)
  : (exception + update_result) * update_installer * world :=
  match cleanup u w with
  | (inl ex, u', w') => install_catch ex r u' w'
  | (inr _, u', w') => (inr r, u', w')
  end.

(** [install (ui)]. *)
Definition install (ui : update_info) (u : update_installer) (w : world)
  : (exception + update_result) * update_installer * world :=
  let r := update_result_init in
  if update_info_empty ui || Str.empty (ui_asset_url ui)
  then (inr (with_error_message "invalid update info" r), u, w)
  else
    match download_archive ui u w with
    | (inl e, w1) => install_catch e r u w1
    | (inr a, w1) =>
        let u1 := push_back a u in
        match extract_launcher a ui u1 w1 with
        | (inl e, u2, w2) => install_catch e r u2 w2
        | (inr b, u2, w2) =>
            let u3 := push_back b u2 in
            match exists_ b w2 with
            | inl e => install_catch e r u3 w2
            | inr false =>
                cleanup_and_return
                  (with_error_message
                     "extraction failed: launcher binary not found" r) u3 w2
            | inr true =>
                let t := current_executable_path w2 in
                match replace_launcher b t w2 with
                | (inl e, w3) => install_catch e r u3 w3
                | (inr r1, w3) =>
                    if negb (success r1) then
                      match rollback r1 w3 with
                      | (inl e, w4) => install_catch e r1 u3 w4
                      | (inr _, w4) => cleanup_and_return r1 u3 w4
                      end
                    else cleanup_and_return r1 u3 w3
                end
            end
        end
    end.

End precise.

End Precise.

(** ** Sample inputs *)

(** Sample collaborators and inputs on which the statements are run. *)
Module Samples.
Import Discovery.

Definition is_digit (c : ascii) : bool :=
  let n := nat_of_ascii c in (48 <=? n)%nat && (n <=? 57)%nat.

(** A version model that accepts a text that starts with a digit, or with
    [v] and a digit, and keeps it as it is. *)
#[local] Instance versions : VersionModel := {|
  launcher_version := string;
  launcher_version_init := "";
  parse_launcher_version s :=
    match s with
    | String c s' =>
        if is_digit c then Some s
        else match s' with
             | String c' _ => if Ascii.eqb c "v" && is_digit c' then Some s' else None
             | EmptyString => None
             end
    | EmptyString => None
    end
|}.

Definition asset (n : string) : asset_type :=
  {| a_name := n;
     a_browser_download_url := "https://example.org/" +:+ n;
     a_size := 1024 |}.

Definition release (tag : string) (draft pre : bool) (l : list asset_type)
  : release_type :=
  {| r_tag_name := tag; r_html_url := "https://example.org/" +:+ tag;
     r_body := ""; r_draft := draft; r_prerelease := pre; r_assets := l |}.

Definition batch : list release_type :=
  [ release "v3.0.0" true false [asset "launcher-3.0.0-x86_64-linux-glibc.tar.xz"];
    release "v2.1.0-rc1" false true [asset "launcher-2.1.0-x86_64-linux-glibc.tar.xz"];
    release "v2.0.0" false false [asset "launcher-2.0.0-x86_64-linux-glibc.tar.xz"];
    release "v1.9.0" false false [asset "launcher-1.9.0-x86_64-linux-glibc.tar.xz"] ].

Definition api : registry := fun _ _ _ => inr batch.

End Samples.

(** Sample hosts and collaborators for the installer. *)
Module Scenario.
Import Fs Discovery Installer.

Definition target : string := "/opt/iw4x/launcher".
Definition fresh : string := "/tmp/launcher_update_extract/launcher".

Definition disk : gmap string node :=
  <[target := File "old-build" true]> (<[fresh := File "new-build" false]> ∅).

(** A host with the old build installed, the new one unpacked, and the
    given faults ahead. *)
Definition host (fl : list (option errc)) : world :=
  {| files := disk; faults := fl;
     self_exe := Some target; cwd := Some "/opt/iw4x" |}.

(** A host on which neither the running image nor the working directory
    can be resolved. *)
Definition lost_host : world :=
  {| files := disk; faults := []; self_exe := None; cwd := None |}.

Definition zip_sample : list zip_entry :=
  [ {| ze_stat := Some "bin/"; ze_is_directory := true; ze_data := None |};
    {| ze_stat := Some "bin/launcher"; ze_is_directory := false;
       ze_data := Some "new-build" |} ].

(** A transport that stores the body and returns, a zip reader that
    accepts every file as [zip_sample], and a [tar] that unpacks one
    binary. *)
#[local] Instance posix : Collaborators (VM := Samples.versions) := {|
  win32 := false;
  update_info_empty ui := Str.empty (ui_tag_name ui);
  http_download url dst w := (None, (write_file dst "archive" w).2);
  mz_zip_reader_init_file data := Some zip_sample;
  system c w := (0%Z, (write_file "/tmp/launcher_update_extract/launcher"
                                   "new-build" w).2)
|}.

(** The same, with a transport that drops the connection after it has
    written part of the body. *)
#[local] Instance flaky : Collaborators (VM := Samples.versions) := {|
  win32 := false;
  update_info_empty ui := Str.empty (ui_tag_name ui);
  http_download url dst w :=
    (Some (Exception "connection reset by peer"), (write_file dst "arch" w).2);
  mz_zip_reader_init_file data := Some zip_sample;
  system c w := (0%Z, w)
|}.

Definition installer : update_installer :=
  {| download_dir_ := "/tmp"; temp_files_ := []; cleanup_calls := 0 |}.

Definition info (n : string) : update_info (VM := Samples.versions) :=
  {| ui_version := "2.0.0" : @launcher_version Samples.versions;
     ui_tag_name := "v2.0.0";
     ui_release_url := "https://example.org/v2.0.0";
     ui_prerelease := false; ui_body := "";
     ui_asset_url := "https://example.org/" +:+ n;
     ui_asset_name := n; ui_asset_size := 1024 |}.

End Scenario.

(** Sample headers for the other entry points, and one run of the pipeline. *)
Module Scenario2.
Import Fs Discovery Installer Queries.

Definition newer (a b : @launcher_version Samples.versions) : bool :=
  String.ltb (b : string) (a : string).

(** Versions compared as texts; an info or release is empty when its tag
    is. *)
#[local] Instance headers : Headers (VM := Samples.versions) := {|
  version_gt := newer;
  ui_empty ui := Str.empty (ui_tag_name ui);
  rel_empty rel := Str.empty (r_tag_name rel)
|}.

Definition by_tag : tag_registry :=
  fun _ _ t =>
    inr (Samples.release t true false
           [Samples.asset "launcher-3.0.0-x86_64-linux-glibc.tar.xz"]).

(** One run of the pipeline on the sample host, stage by stage. *)
Definition update : update_info (VM := Samples.versions) :=
  Scenario.info "launcher-2.0.0-x86_64-linux-glibc.tar.xz".

Definition archive : string := "/tmp/launcher-2.0.0-x86_64-linux-glibc.tar.xz".

Definition downloaded (fl : list (option errc)) : world :=
  (download_archive (CO := Scenario.posix) update Scenario.installer
     (Scenario.host fl)).2.

Definition extracted (fl : list (option errc))
  : (exception + string) * update_installer * world :=
  extract_launcher (CO := Scenario.posix) archive update
    (push_back archive Scenario.installer) (downloaded fl).


(** The result of a swap that went through on the sample host. *)
Definition swapped : update_result :=
  {| success := true; installed_path := Scenario.target;
     backup_path := backup_path_of Scenario.target; error_message := "" |}.

End Scenario2.

(** Sample hosts for [Precise]. *)
Module Scenario3.
Import Fs Discovery Installer Precise.


(** A host on which a copy that runs out of space has created its
    destination and written three bytes. *)
#[local] Instance tearing : Host := {|
  status_error p w := None;
  torn e w :=
    match e with
    | ENOSPC => Some (3, false)
    | _ => None
    end
|}.

(** A host on which the status of the downloaded archive cannot be read. *)
#[local] Instance unreadable : Host := {|
  status_error p w :=
    if bool_decide (p = Scenario2.archive) then Some EIO else None;
  torn e w := None
|}.

(** The installer as [install] has it when it reaches its [cleanup], and
    the host as the sample download and extraction leave it. *)
Definition loaded : update_installer :=
  {| download_dir_ := "/tmp";
     temp_files_ := [Scenario2.archive; "/tmp/launcher_update_extract"; Scenario.fresh];
     cleanup_calls := 0 |}.

Definition unpacked : world := (Scenario2.extracted []).2.

(** The faults under which the copy to the staging path runs out of
    space. *)
Definition staging_refused : list (option errc) :=
  [None; None; None; None; Some ENOSPC].

End Scenario3.

(** * Properties *)

(** ** Strings *)

Section string_facts.

Lemma prefix_app_iff (a s : string) :
  String.prefix a s = true <-> exists post, s = a +:+ post.
Proof.
  revert s. induction a as [|c a IH]; intros s; simpl.
  - split; [intros _; exists s; reflexivity | destruct s; reflexivity].
  - destruct s as [|x s]; simpl.
    + split; [discriminate | intros [post H]; discriminate].
    + destruct (ascii_dec c x) as [->|Hne].
      * rewrite IH. split; intros [post H]; exists post; [by rewrite H | by injection H].
      * split; [discriminate | intros [post H]; injection H; intros; congruence].
Qed.

Lemma index_cons (sub : string) (x : ascii) (s : string) :
  String.index 0 sub (String x s) =
  if String.prefix sub (String x s) then Some 0
  else S <$> String.index 0 sub s.
Proof.
  cbn [String.index]. destruct (String.prefix sub (String x s)); [done|].
  by destruct (String.index 0 sub s).
Qed.

Lemma find_Some_split (sub s : string) (m : nat) :
  Str.find sub s = Some m ->
  exists pre post, s = pre +:+ sub +:+ post /\ String.length pre = m.
Proof.
  unfold Str.find. revert m. induction s as [|x s IH]; intros m.
  - destruct sub; [|discriminate]. intros ?; simplify_eq/=. by exists "", "".
  - rewrite index_cons. destruct (String.prefix sub (String x s)) eqn:Hp.
    + intros ?; simplify_eq. apply prefix_app_iff in Hp as [post Hp].
      exists "", post. split; [exact Hp | reflexivity].
    + destruct (String.index 0 sub s) as [k|] eqn:Hk; [|discriminate].
      intros ?; simplify_eq/=. destruct (IH k eq_refl) as (pre & post & -> & <-).
      by exists (String x pre), post.
Qed.

Lemma find_split_Some (sub pre post : string) :
  Str.find sub (pre +:+ sub +:+ post) <> None.
Proof.
  unfold Str.find. induction pre as [|x pre IH].
  - change ("" +:+ sub +:+ post) with (sub +:+ post).
    destruct (sub +:+ post) eqn:E.
    + destruct sub; [done | discriminate].
    + rewrite index_cons, <- E.
      replace (String.prefix sub (sub +:+ post)) with true; [done|].
      symmetry. apply prefix_app_iff. by exists post.
  - change (String x pre +:+ sub +:+ post) with (String x (pre +:+ sub +:+ post)).
    rewrite index_cons. destruct (String.prefix sub _); [done|].
    destruct (String.index 0 sub (pre +:+ sub +:+ post)); [done | by apply IH].
Qed.

Lemma find_contains (sub s : string) :
  Str.find sub s <> None <-> Str.contains sub s.
Proof.
  split.
  - destruct (Str.find sub s) as [m|] eqn:E; [intros _ | done].
    destruct (find_Some_split _ _ _ E) as (pre & post & -> & _). by exists pre, post.
  - intros (pre & post & ->). apply find_split_Some.
Qed.

Lemma find_starts_with (p s : string) :
  Str.find p s = Some 0 <-> Str.starts_with p s.
Proof.
  unfold Str.find, Str.starts_with. destruct s as [|x s].
  - destruct p; split; try done.
    + intros _. by exists "".
    + intros [post H]. discriminate.
  - rewrite index_cons, <- prefix_app_iff.
    destruct (String.prefix p (String x s)); [done|].
    destruct (String.index 0 p s); split; done.
Qed.

End string_facts.

Section more_string_facts.

Lemma append_cons (x : ascii) (a b : string) :
  String x a +:+ b = String x (a +:+ b).
Proof. reflexivity. Qed.

Lemma append_nil_l (b : string) : "" +:+ b = b.
Proof. reflexivity. Qed.

Lemma append_nil_r (a : string) : a +:+ "" = a.
Proof.
  induction a as [|x a IH]; [done|]. by rewrite append_cons, IH.
Qed.

Lemma append_assoc (a b c : string) : (a +:+ b) +:+ c = a +:+ b +:+ c.
Proof.
  induction a as [|x a IH]; [done|]. by rewrite !append_cons, IH.
Qed.

Lemma length_append (a b : string) :
  String.length (a +:+ b) = String.length a + String.length b.
Proof.
  induction a as [|x a IH]; [done|]. rewrite append_cons. simpl. by rewrite IH.
Qed.

(** Two ways of cutting one string: the shorter head is a head of the
    longer one. *)
Lemma append_eq_split (a x pre y : string) :
  a +:+ x = pre +:+ y -> String.length a <= String.length pre ->
  exists v, pre = a +:+ v.
Proof.
  revert pre. induction a as [|c a IH]; intros pre.
  - intros _ _. by exists pre.
  - destruct pre as [|d pre]; [simpl; lia|].
    rewrite !append_cons. simpl. intros ? Hl; simplify_eq.
    destruct (IH pre) as [v ->]; [done | lia |]. by exists v.
Qed.

Lemma substring_head (v rest : string) :
  String.substring 0 (String.length v) (v +:+ rest) = v.
Proof.
  induction v as [|d v IHv]; [by destruct rest|].
  rewrite append_cons. simpl. by rewrite IHv.
Qed.

Lemma substring_middle (a v rest : string) :
  String.substring (String.length a) (String.length v) (a +:+ v +:+ rest) = v.
Proof.
  induction a as [|c a IH]; [exact (substring_head v rest) | by rewrite append_cons].
Qed.

Lemma append_neq_self (t k : string) : k <> "" -> t +:+ k <> t.
Proof.
  intros Hk E. apply Hk. apply (f_equal String.length) in E.
  rewrite length_append in E. destruct k; [done | simpl in E; lia].
Qed.

Lemma prefix_append_head (a b c : string) :
  String.prefix (a +:+ b) (a +:+ c) = String.prefix b c.
Proof.
  induction a as [|x a IH]; [done|]. rewrite !append_cons. simpl.
  destruct (ascii_dec x x); [done | congruence].
Qed.

End more_string_facts.

(** ** Release discovery *)

Section discovery_facts.
Import Discovery.

Lemma asset_matches_iff (s e : string) (a : asset_type) :
  asset_matches s e a = true <->
  Str.starts_with "launcher-" (a_name a) /\
  Str.contains s (a_name a) /\ Str.contains e (a_name a).
Proof.
  unfold asset_matches.
  rewrite !andb_true_iff, !bool_decide_eq_true, !find_contains, find_starts_with.
  tauto.
Qed.

Lemma scan_assets_Some (s e : string) (l : list asset_type) (a : asset_type) :
  scan_assets s e l = Some a ->
  exists l1 l2, l = (l1 ++ a :: l2)%list /\ asset_matches s e a = true /\
                Forall (fun x => asset_matches s e x = false) l1.
Proof.
  induction l as [|x l IH]; simpl; [done|].
  destruct (asset_matches s e x) eqn:Hx.
  - intros ?; simplify_eq. by exists [], l.
  - intros H. destruct (IH H) as (l1 & l2 & -> & Ha & Hl1).
    exists (x :: l1), l2. split_and!; [done | done | by constructor].
Qed.

Lemma scan_assets_None (s e : string) (l : list asset_type) :
  scan_assets s e l = None <-> Forall (fun x => asset_matches s e x = false) l.
Proof.
  induction l as [|x l IH]; simpl; [by split; [constructor|]|].
  destruct (asset_matches s e x) eqn:Hx.
  - split; [done | intros H; inversion H; congruence].
  - rewrite IH. split; [by constructor | by inversion 1].
Qed.

(** C5: [find_platform_asset] returns an asset only when its name starts
    with the fixed prefix and contains both the platform token and the
    extension of the running platform's profile; when every asset of the
    release misses one of the three, or the platform has no profile, it
    returns no match.  The Linux-named zip is rejected under the Windows
    profile. *)
Theorem find_platform_asset_all_three (p : platform_type) (r : release_type) :
  (forall a, find_platform_asset p r = Some a ->
     exists s e, platform_profile p = Some (s, e) /\ a ∈ r_assets r /\
       Str.starts_with "launcher-" (a_name a) /\
       Str.contains s (a_name a) /\ Str.contains e (a_name a)) /\
  (forall s e, platform_profile p = Some (s, e) ->
     (forall a, a ∈ r_assets r ->
        ~ (Str.starts_with "launcher-" (a_name a) /\
           Str.contains s (a_name a) /\ Str.contains e (a_name a))) ->
     find_platform_asset p r = None) /\
  (platform_profile p = None -> find_platform_asset p r = None) /\
  (forall url size tag html body draft pre,
     find_platform_asset windows_x64
       {| r_tag_name := tag; r_html_url := html; r_body := body;
          r_draft := draft; r_prerelease := pre;
          r_assets := [ {| a_name := "launcher-1.2.3-x86_64-linux-glibc.zip";
                           a_browser_download_url := url;
                           a_size := size |} ] |} = None).
Proof.
  split_and!.
  - intros a Ha.
    assert (exists s e, platform_profile p = Some (s, e) /\
                        scan_assets s e (r_assets r) = Some a) as (s & e & Hp & Hs).
    { destruct p; simpl in *; try done; eauto. }
    exists s, e. destruct (scan_assets_Some _ _ _ _ Hs) as (l1 & l2 & Hl & Hm & _).
    apply asset_matches_iff in Hm. split_and!; try tauto.
    rewrite Hl. apply elem_of_app. right. by left.
  - intros s e Hp Hall.
    assert (scan_assets s e (r_assets r) = None) as Hs.
    { apply scan_assets_None, Forall_forall. intros a Ha.
      destruct (asset_matches s e a) eqn:Hm; [|done].
      apply asset_matches_iff in Hm. by destruct (Hall a Ha). }
    destruct p; simpl in *; simplify_eq; done.
  - by destruct p.
  - intros. reflexivity.
Qed.

End discovery_facts.

Section fetch_facts.
Import Discovery.
Context {VM : VersionModel}.

Lemma pick_release_skips (incl : bool) (l1 l2 : list release_type) :
  Forall (fun i => eligible incl i = false) l1 ->
  pick_release incl (l1 ++ l2)%list = pick_release incl l2.
Proof.
  induction 1 as [|i l1 Hi _ IH]; [done|]. simpl. rewrite IH.
  unfold eligible in Hi. destruct (r_draft i); [done|].
  simpl in Hi. by rewrite Hi.
Qed.

Lemma pick_release_head (incl : bool) (b : release_type) (l2 : list release_type) :
  eligible incl b = true -> pick_release incl (b :: l2) = Some b.
Proof.
  unfold eligible. simpl. destruct (r_draft b); [done|]. simpl. by intros ->.
Qed.

(** A batch has no eligible release or a first one. *)
Lemma first_eligible (incl : bool) (rs : list release_type) :
  Forall (fun i => eligible incl i = false) rs \/
  exists l1 b l2,
    rs = (l1 ++ b :: l2)%list /\
    Forall (fun i => eligible incl i = false) l1 /\ eligible incl b = true.
Proof.
  induction rs as [|i rs IH]; [by left|].
  destruct (eligible incl i) eqn:Hi.
  - right. by exists [], i, rs.
  - destruct IH as [Hall|(l1 & b & l2 & -> & Hl1 & Hb)].
    + left. by constructor.
    + right. exists (i :: l1), b, l2. split_and!; [done | by constructor | done].
Qed.

(** C4: [fetch_latest_release] asks the registry for 20 releases and walks
    the batch in order.  When no release of the batch is eligible (so also
    for the empty batch) it returns the empty sentinel; otherwise it
    converts the first eligible release, whatever follows it, and with
    [include_prerelease_] unset that release is neither a draft nor a
    pre-release.  Every batch is in one of the two cases. *)
Theorem fetch_latest_release_first_match
    (api_ : registry) (p : platform_type) (incl : bool) (o r : string)
    (rs : list release_type) :
  api_ o r 20 = inr rs ->
  (Forall (fun i => eligible incl i = false) rs ->
     fetch_latest_release api_ p incl o r = inr update_info_init) /\
  (forall l1 b l2,
     rs = (l1 ++ b :: l2)%list ->
     Forall (fun i => eligible incl i = false) l1 ->
     eligible incl b = true ->
     fetch_latest_release api_ p incl o r = inr (release_to_update_info p b) /\
     r_draft b = false /\
     (incl = false -> r_prerelease b = false)) /\
  (Forall (fun i => eligible incl i = false) rs \/
   exists l1 b l2,
     rs = (l1 ++ b :: l2)%list /\
     Forall (fun i => eligible incl i = false) l1 /\ eligible incl b = true).
Proof.
  intros Hapi. unfold fetch_latest_release. rewrite Hapi. split; [|split].
  3: { apply first_eligible. }
  - intros Hall. destruct rs as [|i rs']; [done|].
    replace (i :: rs') with ((i :: rs') ++ [])%list by apply app_nil_r.
    by rewrite (pick_release_skips _ _ _ Hall).
  - intros l1 b l2 -> Hl1 Hb.
    rewrite (pick_release_skips _ _ _ Hl1), (pick_release_head _ _ _ Hb).
    split_and!.
    + by destruct l1.
    + unfold eligible in Hb. by destruct (r_draft b).
    + intros ->. unfold eligible in Hb.
      destruct (r_draft b), (r_prerelease b); done.
Qed.

End fetch_facts.

(** The sample batch: the draft and the pre-release are passed over and
    [v2.0.0] is taken although [v1.9.0] is eligible too. *)
Lemma fetch_latest_release_first_match_witness :
  Discovery.fetch_latest_release Samples.api Discovery.linux_x64 false "iw4x" "launcher"
  = inr (Discovery.fill_update_info
           (Samples.release "v2.0.0" false false
              [Samples.asset "launcher-2.0.0-x86_64-linux-glibc.tar.xz"])
           (Samples.asset "launcher-2.0.0-x86_64-linux-glibc.tar.xz")
           ("2.0.0" : @Discovery.launcher_version Samples.versions)).
Proof.
  destruct (fetch_latest_release_first_match (VM := Samples.versions)
              Samples.api Discovery.linux_x64 false "iw4x" "launcher"
              Samples.batch eq_refl) as (_ & H & _).
  destruct (H (firstn 2 Samples.batch) (Samples.release "v2.0.0" false false
              [Samples.asset "launcher-2.0.0-x86_64-linux-glibc.tar.xz"])
              (skipn 3 Samples.batch) eq_refl) as [-> _].
  - repeat constructor.
  - reflexivity.
  - vm_compute. reflexivity.
Defined.

Section version_resolution.
Import Discovery.
Context {VM : VersionModel}.

Lemma suffix_pos_Some (l : list string) (n : string) (e : nat) :
  suffix_pos l n = Some e -> exists suf, suf ∈ l /\ Str.find suf n = Some e.
Proof.
  induction l as [|s l IH]; simpl; [done|].
  destruct (Str.find s n) as [pos|] eqn:Hs.
  - intros ?; simplify_eq. exists s. split; [by left | done].
  - intros H. destruct (IH H) as (suf & Hin & Hf). exists suf. split; [by right | done].
Qed.

(** What [parse_asset_version] hands to the version parser: the text
    between the prefix and the platform suffix. *)
Lemma parse_asset_version_Some (n : string) (v : launcher_version) :
  parse_asset_version n = Some v ->
  exists ver suf rest,
    n = "launcher-" +:+ ver +:+ suf +:+ rest /\ suf ∈ sufs /\ ver <> "" /\
    parse_launcher_version ver = Some v.
Proof.
  unfold parse_asset_version. case_bool_decide as Hp; [done|].
  apply find_starts_with in Hp as [rest0 Hn].
  destruct (suffix_pos sufs n) as [e|] eqn:He; [|done].
  destruct (Nat.leb_spec e (String.length "launcher-")) as [|Hlt]; [done|].
  intros Hv. apply suffix_pos_Some in He as (suf & Hin & Hf).
  apply find_Some_split in Hf as (pre & post & Hn' & Hlen).
  destruct (append_eq_split "launcher-" rest0 pre (suf +:+ post)) as [ver ->].
  { by rewrite <- Hn, <- Hn'. }
  { lia. }
  rewrite length_append in Hlen.
  assert (e - String.length "launcher-" = String.length ver) as Hsub by lia.
  rewrite Hsub, Hn', append_assoc in Hv. unfold Str.substr in Hv.
  rewrite substring_middle in Hv.
  exists ver, suf, post. split_and!; [by rewrite Hn', append_assoc | done | | done].
  intros ->. simpl in *. lia.
Qed.

(** C6: for a release with a matched platform asset, the version comes from
    the asset's file name (the text between the [launcher-] prefix and a
    known platform suffix) when that parses, else from the release tag; the
    result then carries that version, the release's tag, page, notes and
    pre-release flag and the asset's address, name and size.  When neither
    parses the result is the empty sentinel, whose asset address is empty. *)
Theorem release_to_update_info_version_policy
    (p : platform_type) (r : release_type) (a : asset_type) :
  find_platform_asset p r = Some a ->
  let filled v :=
    {| ui_version := v;
       ui_tag_name := r_tag_name r;
       ui_release_url := r_html_url r;
       ui_prerelease := r_prerelease r;
       ui_body := r_body r;
       ui_asset_url := a_browser_download_url a;
       ui_asset_name := a_name a;
       ui_asset_size := a_size a |} in
  (forall v, parse_asset_version (a_name a) = Some v ->
     release_to_update_info p r = filled v /\
     ui_version (release_to_update_info p r) = v /\
     exists ver suf rest,
       a_name a = "launcher-" +:+ ver +:+ suf +:+ rest /\ suf ∈ sufs /\
       ver <> "" /\ parse_launcher_version ver = Some v) /\
  (parse_asset_version (a_name a) = None ->
     (forall v, parse_launcher_version (r_tag_name r) = Some v ->
        release_to_update_info p r = filled v /\
        ui_version (release_to_update_info p r) = v) /\
     (parse_launcher_version (r_tag_name r) = None ->
        release_to_update_info p r = update_info_init /\
        ui_asset_url (release_to_update_info p r) = "" /\
        ui_asset_name (release_to_update_info p r) = "")).
Proof.
  intros Ha filled. unfold release_to_update_info. rewrite Ha. split.
  - intros v Hv. rewrite Hv. split_and!; [done | done |].
    by apply parse_asset_version_Some.
  - intros Hn. rewrite Hn. split.
    + intros v ->. split; reflexivity.
    + intros ->. split_and!; reflexivity.
Qed.

End version_resolution.

(** On the sample release the version is read from the asset name, not from
    the tag, and the result carries it. *)
Lemma release_to_update_info_version_policy_witness :
  Discovery.ui_version
    (Discovery.release_to_update_info (VM := Samples.versions) Discovery.linux_x64
       (Samples.release "v9.9.9" false false
          [Samples.asset "launcher-2.0.0-x86_64-linux-glibc.tar.xz"]))
  = ("2.0.0" : @Discovery.launcher_version Samples.versions).
Proof.
  destruct (release_to_update_info_version_policy (VM := Samples.versions)
              Discovery.linux_x64
              (Samples.release "v9.9.9" false false
                 [Samples.asset "launcher-2.0.0-x86_64-linux-glibc.tar.xz"])
              (Samples.asset "launcher-2.0.0-x86_64-linux-glibc.tar.xz")
              eq_refl) as [H _].
  destruct (H "2.0.0") as (_ & Hv & _); [vm_compute; reflexivity | exact Hv].
Defined.

(** ** The filesystem *)

Lemma next_fault_files (w : Fs.world) : Fs.files (Fs.next_fault w).2 = Fs.files w.
Proof. unfold Fs.next_fault. by destruct (Fs.faults w). Qed.

(** Splitting a call into the fault the environment forces and the run of
    the call itself. *)
Ltac fs_step w :=
  let o := fresh "o" in
  let w1 := fresh "w" in
  let Hnf := fresh "Hnf" in
  let Hf := fresh "Hf" in
  pose proof (next_fault_files w) as Hf;
  destruct (Fs.next_fault w) as [o w1] eqn:Hnf; simpl in Hf;
  destruct o.

Section fs_facts.
Import Fs.

Lemma exists_next_fault (p : string) (w : world) :
  exists_ p (next_fault w).2 = exists_ p w.
Proof. unfold exists_. by rewrite next_fault_files. Qed.

Lemma is_directory_next_fault (p : string) (w : world) :
  is_directory p (next_fault w).2 = is_directory p w.
Proof. unfold is_directory. by rewrite next_fault_files. Qed.

Lemma exists_Some (p : string) (w : world) :
  exists_ p w = true <-> p <> "" /\ is_Some (files w !! p).
Proof. unfold exists_. by rewrite andb_true_iff, !bool_decide_eq_true. Qed.

Lemma exists_false (p : string) (w : world) :
  files w !! p = None -> exists_ p w = false.
Proof.
  intros H. unfold exists_. rewrite H, andb_false_iff. right.
  apply bool_decide_eq_false. by intros [? ?].
Qed.

Lemma exists_empty_path (w : world) : exists_ "" w = false.
Proof. done. Qed.

(** A rename or a copy that reports an error has changed nothing. *)
Lemma rename_error (old new : string) (w w' : world) (e : errc) :
  rename old new w = (Some e, w') -> files w' = files w.
Proof.
  unfold rename. fs_step w; intros ?; repeat case_match; by simplify_eq.
Qed.

Lemma copy_file_error (from to : string) (w w' : world) (e : errc) :
  copy_file from to w = (Some e, w') -> files w' = files w.
Proof.
  unfold copy_file. fs_step w; intros ?; repeat case_match; by simplify_eq.
Qed.

(** What a successful copy leaves. *)
Lemma copy_file_ok (from to : string) (w w' : world) :
  copy_file from to w = (None, w') ->
  exists d x, files w !! from = Some (File d x) /\
              files w' = <[to := File d x]> (files w).
Proof.
  unfold copy_file. fs_step w; intros ?; repeat case_match; simplify_eq;
    simpl; rewrite Hf in *; eauto.
Qed.

(** [fs::remove] touches no other path. *)
Lemma remove_other (p q : string) (w : world) :
  q <> p -> files (remove p w).2 !! q = files w !! q.
Proof.
  intros Hq. unfold remove. fs_step w; repeat case_match; simpl;
    rewrite ?lookup_delete_ne; congruence.
Qed.

Lemma remove_gone (p : string) (w w' : world) :
  remove p w = (None, w') -> exists_ p w' = false.
Proof.
  unfold remove. fs_step w; intros ?; repeat case_match; simplify_eq.
  - by apply negb_true_iff.
  - apply exists_false. simpl. apply lookup_delete_eq.
Qed.

Lemma remove_all_gone (p : string) (w w' : world) :
  remove_all p w = (None, w') -> exists_ p w' = false.
Proof.
  unfold remove_all. fs_step w; intros ?; repeat case_match; simplify_eq.
  - by apply negb_true_iff.
  - apply exists_false. simpl. apply lookup_delete_eq.
Qed.

(** Removal only ever takes entries away. *)
Lemma remove_subseteq (p : string) (w : world) :
  files (remove p w).2 ⊆ files w.
Proof.
  unfold remove. fs_step w; repeat case_match; simpl; rewrite <- ?Hf; try done.
  apply delete_subseteq.
Qed.

Lemma remove_all_subseteq (p : string) (w : world) :
  files (remove_all p w).2 ⊆ files w.
Proof.
  unfold remove_all. fs_step w; repeat case_match; simpl; rewrite <- ?Hf; try done.
  etrans; [apply delete_subseteq | apply map_filter_subseteq].
Qed.

Lemma permissions_other (p q : string) (w : world) :
  q <> p -> files (permissions_add_exec p w).2 !! q = files w !! q.
Proof.
  intros Hq. unfold permissions_add_exec. fs_step w; repeat case_match; simpl;
    rewrite ?lookup_insert_ne; congruence.
Qed.

(** Setting the execute bits keeps the bytes. *)
Lemma permissions_data (p d : string) (x : bool) (w : world) :
  files w !! p = Some (File d x) ->
  exists y, files (permissions_add_exec p w).2 !! p = Some (File d y).
Proof.
  intros Hp. unfold permissions_add_exec. fs_step w; repeat case_match; simpl;
    rewrite ?Hf in *; simplify_eq; rewrite ?lookup_insert_eq; eauto.
Qed.

End fs_facts.

Section rename_facts.
Import Fs.

Lemma outside_lookup (d q : string) (m : gmap string node) :
  under d q = false -> outside d m !! q = m !! q.
Proof.
  intros Hq. apply option_eq. intros v. unfold outside.
  rewrite map_lookup_filter_Some. simpl. split; [by intros [? _] | by split].
Qed.

Lemma substring_tail (a v : string) :
  String.substring (String.length a)
    (String.length (a +:+ v) - String.length a) (a +:+ v) = v.
Proof.
  rewrite length_append.
  replace (String.length a + String.length v - String.length a)
    with (String.length v) by lia.
  rewrite <- (append_nil_r v) at 2.
  rewrite substring_middle. done.
Qed.

Lemma rebase_under (old new q : string) :
  under old q = true -> under new (rebase old new q) = true.
Proof.
  unfold under, rebase. intros H. apply prefix_app_iff in H as [rest ->].
  rewrite append_assoc, substring_tail.
  apply prefix_app_iff. exists rest. by rewrite append_assoc.
Qed.

Lemma moved_lookup_None (old new q : string) (m : gmap string node) :
  under new q = false ->
  (list_to_map (map (fun kv : string * node => (rebase old new kv.1, kv.2))
                    (map_to_list (subtree old m))) : gmap string node) !! q = None.
Proof.
  intros Hq. apply not_elem_of_list_to_map_1. intros Hin.
  apply list_elem_of_fmap in Hin as ([k v] & -> & Hkv).
  apply list_elem_of_fmap in Hkv as ([k' v'] & ? & Hkv); simplify_eq/=.
  apply elem_of_map_to_list in Hkv. unfold subtree in Hkv.
  apply map_lookup_filter_Some in Hkv as [_ Hu]. simpl in Hu.
  apply (rebase_under old new) in Hu. congruence.
Qed.

(** A successful rename leaves every path outside the two trees alone. *)
Lemma rename_other (old new q : string) (w : world) :
  q <> old -> q <> new -> under old q = false -> under new q = false ->
  files (rename old new w).2 !! q = files w !! q.
Proof.
  intros Ho Hn Huo Hun. unfold rename.
  fs_step w; repeat case_match; simpl; rewrite <- ?Hf; try done.
  - by rewrite lookup_insert_ne, lookup_delete_ne.
  - by rewrite lookup_insert_ne, lookup_delete_ne.
  - unfold move_tree. rewrite lookup_insert_ne by done.
    rewrite lookup_union_r by (by apply moved_lookup_None).
    by rewrite lookup_delete_ne, !outside_lookup.
  - unfold move_tree. rewrite lookup_insert_ne by done.
    rewrite lookup_union_r by (by apply moved_lookup_None).
    by rewrite lookup_delete_ne, !outside_lookup.
Qed.

(** After a successful rename the target carries what the source was. *)
Lemma rename_ok (old new : string) (w w' : world) :
  rename old new w = (None, w') -> files w' !! new = files w !! old.
Proof.
  unfold rename. fs_step w; intros ?; repeat case_match; simplify_eq; simpl;
    rewrite <- ?Hf; simplify_eq; rewrite ?lookup_insert_eq; try done.
  - match goal with H : bool_decide (_ = _) = true |- _ =>
      apply bool_decide_eq_true in H; by subst end.
  - unfold move_tree. by rewrite lookup_insert_eq.
  - unfold move_tree. by rewrite lookup_insert_eq.
Qed.

Lemma copy_file_other (from to q : string) (w : world) :
  q <> to -> files (copy_file from to w).2 !! q = files w !! q.
Proof.
  intros Hq. unfold copy_file. fs_step w; repeat case_match; simpl;
    rewrite <- ?Hf; rewrite ?lookup_insert_ne; congruence.
Qed.

(** The staging and backup names never collide with the target or with
    each other, and neither lies below the other. *)
Lemma staging_neq (t : string) : Installer.staging_path t <> t.
Proof. by apply append_neq_self. Qed.

Lemma backup_neq (t : string) : Installer.backup_path_of t <> t.
Proof. by apply append_neq_self. Qed.

Lemma staging_backup_neq (t : string) :
  Installer.staging_path t <> Installer.backup_path_of t.
Proof.
  unfold Installer.staging_path, Installer.backup_path_of. intros E.
  apply String.app_inj in E. discriminate.
Qed.

Lemma staging_not_under_target (t : string) :
  under t (Installer.staging_path t) = false.
Proof. unfold under, Installer.staging_path. by rewrite prefix_append_head. Qed.

Lemma staging_not_under_backup (t : string) :
  under (Installer.backup_path_of t) (Installer.staging_path t) = false.
Proof.
  unfold under, Installer.staging_path, Installer.backup_path_of.
  by rewrite append_assoc, prefix_append_head.
Qed.

Lemma backup_path_of_nonempty (t : string) : Installer.backup_path_of t <> "".
Proof. unfold Installer.backup_path_of. by destruct t. Qed.

End rename_facts.

(** ** The replacement engine *)

Section replace_facts.
Import Fs Discovery Installer.
Context {VM : VersionModel} {CO : Collaborators}.

Lemma stage_new_binary_Next (nb t : string) (r r1 : update_result) (w w1 : world) :
  stage_new_binary nb t r w = (Next r1, w1) ->
  r1 = r /\
  (exists d x y, files w !! nb = Some (File d x) /\
                 files w1 !! staging_path t = Some (File d y)) /\
  (forall q, q <> staging_path t -> files w1 !! q = files w !! q).
Proof.
  unfold stage_new_binary.
  destruct (copy_file nb (staging_path t) w) as [[ec|] w0] eqn:Hc; [done|].
  intros ?; simplify_eq. apply copy_file_ok in Hc as (d & x & Hnb & Hw0).
  split_and!; [done | |].
  - destruct win32.
    + exists d, x, x. by rewrite Hw0, lookup_insert_eq.
    + destruct (permissions_data (staging_path t) d x w0) as [y Hy].
      { by rewrite Hw0, lookup_insert_eq. }
      by exists d, x, y.
  - intros q Hq. destruct win32.
    + by rewrite Hw0, lookup_insert_ne.
    + by rewrite permissions_other, Hw0, lookup_insert_ne.
Qed.

Lemma stage_new_binary_Return (nb t : string) (r r' : update_result) (w w1 : world) :
  stage_new_binary nb t r w = (Return r', w1) ->
  exists m, r' = with_error_message m r /\ m <> "".
Proof.
  unfold stage_new_binary.
  destruct (copy_file nb (staging_path t) w) as [[ec|] w0]; [|done].
  intros ?; simplify_eq. eexists. split; [done|]. by destruct ec.
Qed.

(** The second block either records the backup, and then [T.backup] holds
    what was at [T], or leaves the result as it was. *)
Lemma backup_current_Next (t : string) (r r2 : update_result) (w w2 : world) :
  backup_current t r w = (Next r2, w2) ->
  (exists_ t w = false /\ r2 = r /\ w2 = w) \/
  (exists_ t w = true /\ r2 = with_backup_path (backup_path_of t) r /\
   files w2 !! backup_path_of t = files w !! t).
Proof.
  unfold backup_current. destruct (exists_ t w) eqn:Ht; [|left; by simplify_eq].
  intros H. right. split; [done|].
  set (w1 := if exists_ (backup_path_of t) w
             then (remove (backup_path_of t) w).2 else w) in *.
  assert (files w1 !! t = files w !! t) as Hw1.
  { subst w1. destruct (exists_ (backup_path_of t) w); [|done].
    apply remove_other. intros E. by apply (backup_neq t). }
  destruct (rename t (backup_path_of t) w1) as [[e|] w2'] eqn:Hr.
  - apply rename_error in Hr.
    destruct (copy_file t (backup_path_of t) w2') as [[e2|] w3] eqn:Hc; [done|].
    simplify_eq. split; [done|].
    apply copy_file_ok in Hc as (d & x & Hd & ->).
    by rewrite lookup_insert_eq, <- Hd, Hr.
  - simplify_eq. split; [done|]. apply rename_ok in Hr. by rewrite Hr.
Qed.

Lemma backup_current_Return (t : string) (r r' : update_result) (w w2 : world) :
  backup_current t r w = (Return r', w2) ->
  exists m, r' = with_error_message m r /\ m <> "".
Proof.
  unfold backup_current. destruct (exists_ t w); [|done].
  destruct (rename _ _ _) as [[e|] w1']; [|done].
  destruct (copy_file _ _ _) as [[e2|] w3]; [|done].
  intros ?; simplify_eq. eexists. split; [done|]. by destruct e2.
Qed.

Lemma install_staged_result (t : string) (r r' : update_result) (w w' : world) :
  install_staged t r w = (r', w') ->
  installed_path r' = installed_path r /\ backup_path r' = backup_path r.
Proof.
  unfold install_staged. repeat case_match; intros ?; by simplify_eq.
Qed.

(** The two paths a result of [replace_launcher] carries. *)
Lemma replace_launcher_paths (nb t : string) (w : world) :
  let r := (replace_launcher nb t w).1 in
  installed_path r = t /\
  (backup_path r <> "" <-> backup_recorded nb t w) /\
  (backup_path r <> "" -> backup_path r = backup_path_of t) /\
  (t = "" -> backup_path r = "").
Proof.
  set (r0 := with_installed_path t update_result_init).
  unfold replace_launcher, backup_recorded. fold r0.
  destruct (stage_new_binary nb t r0 w) as [[r1|r'] w1] eqn:Hs.
  - destruct (stage_new_binary_Next _ _ _ _ _ _ Hs) as (-> & _ & _).
    destruct (backup_current t r0 w1) as [[r2|r'] w2] eqn:Hb.
    + destruct (install_staged t r2 w2) as [r3 w3] eqn:Hi.
      apply install_staged_result in Hi as [Hip Hbp]. simpl.
      rewrite Hip, Hbp.
      destruct (backup_current_Next _ _ _ _ _ Hb) as [(Hex & -> & ->)|(Hex & -> & Hfile)].
      * split_and!; [done | | done | done].
        split; [done|]. intros (r1 & w1' & r2 & w2 & ? & Hex' & ?).
        simplify_eq. congruence.
      * split_and!; [done | | done |].
        -- split; [|intros _; apply backup_path_of_nonempty].
           intros _. by exists r0, w1, (with_backup_path (backup_path_of t) r0), w2.
        -- intros ->. by rewrite exists_empty_path in Hex.
    + destruct (backup_current_Return _ _ _ _ _ Hb) as (m & -> & _). simpl.
      split_and!; [done | | done | done].
      split; [done|]. intros (r1 & w1' & r2 & w2' & ? & _ & ?).
      simplify_eq. congruence.
  - destruct (stage_new_binary_Return _ _ _ _ _ _ Hs) as (m & -> & _). simpl.
    split_and!; [done | | done | done].
    split; [done|]. intros (r1 & w1' & r2 & w2' & ? & _). congruence.
Qed.

(** C10, as far as it holds: every result of [replace_launcher] carries
    [installed_path = T], which is non-empty whenever [T] is; on such a
    result the guard of [rollback] lets the call through exactly when
    [backup_path] is non-empty, and that is exactly when the backup block
    recorded a backup in this call. *)
Theorem replace_launcher_installed_path (nb t : string) (w : world) :
  let r := (replace_launcher nb t w).1 in
  installed_path r = t /\
  (t <> "" -> installed_path r <> "") /\
  (Str.empty (backup_path r) || Str.empty (installed_path r) = false
     <-> backup_path r <> "") /\
  (backup_path r <> "" <-> backup_recorded nb t w) /\
  (backup_path r <> "" -> backup_path r = backup_path_of t).
Proof.
  intros r. destruct (replace_launcher_paths nb t w) as (Hip & Hrec & Hbp & Hempty).
  fold r in Hip, Hrec, Hbp, Hempty.
  split_and!; try done.
  - by rewrite Hip.
  - rewrite Hip. unfold Str.empty. destruct (decide (t = "")) as [->|Ht].
    + rewrite (Hempty eq_refl). simpl. split; done.
    + destruct (decide (backup_path r = "")) as [->|Hb]; simpl.
      * split; done.
      * repeat case_decide; split; done.
Qed.

End replace_facts.

Section ladder_facts.
Import Fs Discovery Installer.
Context {VM : VersionModel} {CO : Collaborators}.

(** C1, as far as it holds: when the rename of [T] to [T.backup] fails and
    the copy that stands in for it fails too, [replace_launcher] returns a
    failed result with a message and an empty [backup_path]; what is at [T]
    is what was there before the call; the staging file is not kept for
    [cleanup] but removed on the spot, so it is gone unless that removal
    fails; and [rollback] on the result returns [false] and leaves the
    filesystem as it is. *)
Theorem replace_launcher_backup_failure
    (nb t : string) (w w1 w2 w3 : world) (r1 : update_result) (e1 e2 : errc) :
  stage_new_binary nb t (with_installed_path t update_result_init) w = (Next r1, w1) ->
  exists_ t w1 = true ->
  rename t (backup_path_of t)
    (if exists_ (backup_path_of t) w1
     then (remove (backup_path_of t) w1).2 else w1) = (Some e1, w2) ->
  copy_file t (backup_path_of t) w2 = (Some e2, w3) ->
  exists r w',
    replace_launcher nb t w = (r, w') /\
    success r = false /\
    backup_path r = "" /\
    error_message r = "failed to backup current launcher: " +:+ message e2 /\
    files w' !! t = files w !! t /\
    w' = (remove (staging_path t) w3).2 /\
    ((remove (staging_path t) w3).1 = None -> exists_ (staging_path t) w' = false) /\
    rollback r w' = (false, w').
Proof.
  intros Hs Ht Hr Hc.
  destruct (stage_new_binary_Next _ _ _ _ _ _ Hs) as (-> & _ & Hframe).
  eexists _, _. split.
  { unfold replace_launcher. rewrite Hs. unfold backup_current.
    rewrite Ht, Hr, Hc. reflexivity. }
  split_and!; try done.
  - rewrite remove_other by (intros E; by apply (staging_neq t)).
    rewrite (copy_file_error _ _ _ _ _ Hc), (rename_error _ _ _ _ _ Hr).
    transitivity (files w1 !! t).
    + destruct (exists_ (backup_path_of t) w1); [|done].
      apply remove_other. intros E. by apply (backup_neq t).
    + apply Hframe. intros E. by apply (staging_neq t).
  - destruct (remove (staging_path t) w3) as [o w4] eqn:Hrm. simpl.
    intros ->. by apply remove_gone in Hrm.
Qed.


End ladder_facts.

(** With the rename of the live executable refused and the copy refused as
    well, the call fails with no backup, the old build is still at the
    target, the staging file is gone and [rollback] does nothing. *)
Lemma replace_launcher_backup_failure_witness :
  exists r w',
    Installer.replace_launcher (CO := Scenario.posix) Scenario.fresh Scenario.target
      (Scenario.host [None; None; Some Fs.EBUSY; Some Fs.EACCES]) = (r, w') /\
    Installer.success r = false /\
    Installer.backup_path r = "" /\
    Installer.error_message r
      = "failed to backup current launcher: " +:+ Fs.message Fs.EACCES /\
    Fs.files w' !! Scenario.target
      = Fs.files (Scenario.host [None; None; Some Fs.EBUSY; Some Fs.EACCES])
          !! Scenario.target /\
    w' = (Fs.remove (Installer.staging_path Scenario.target)
            (Fs.with_files
               (<[Installer.staging_path Scenario.target := Fs.File "new-build" true]>
                  Scenario.disk)
               (Scenario.host []))).2 /\
    ((Fs.remove (Installer.staging_path Scenario.target)
        (Fs.with_files
           (<[Installer.staging_path Scenario.target := Fs.File "new-build" true]>
              Scenario.disk)
           (Scenario.host []))).1 = None ->
     Fs.exists_ (Installer.staging_path Scenario.target) w' = false) /\
    Installer.rollback r w' = (false, w').
Proof.
  eapply (replace_launcher_backup_failure (CO := Scenario.posix)
            Scenario.fresh Scenario.target
            (Scenario.host [None; None; Some Fs.EBUSY; Some Fs.EACCES])
            _ _ _ _ Fs.EBUSY Fs.EACCES);
    vm_compute; reflexivity.
Defined.

(** C1 as it is worded fails here: the backup step fails, and on return the
    staging file is not there for [cleanup] to find. *)
Lemma replace_launcher_backup_failure_staging_removed :
  let '(r, w') :=
    Installer.replace_launcher (CO := Scenario.posix) Scenario.fresh Scenario.target
      (Scenario.host [None; None; Some Fs.EBUSY; Some Fs.EACCES]) in
  Installer.success r = false /\
  Installer.backup_path r = "" /\
  Installer.error_message r = "failed to backup current launcher: Permission denied" /\
  Fs.exists_ (Installer.staging_path Scenario.target) w' = false.
Proof. vm_compute. repeat split. Qed.


(** C10 as it is worded fails for the empty target, which [install] passes
    on when neither the running image nor the working directory resolves. *)
Lemma replace_launcher_installed_path_empty :
  Installer.current_executable_path Scenario.lost_host = "" /\
  Installer.installed_path
    (Installer.replace_launcher (CO := Scenario.posix) Scenario.fresh
       (Installer.current_executable_path Scenario.lost_host) Scenario.lost_host).1 = "".
Proof. vm_compute. split; reflexivity. Qed.

(** ** Cleanup *)

Section cleanup_facts.
Import Fs Discovery Installer.
Context {VM : VersionModel} {CO : Collaborators}.

Lemma exists_subseteq (p : string) (w w' : world) :
  files w' ⊆ files w -> exists_ p w = false -> exists_ p w' = false.
Proof.
  unfold exists_. intros Hsub H. apply andb_false_iff in H as [H|H].
  - by rewrite H.
  - apply andb_false_iff. right. apply bool_decide_eq_false.
    apply bool_decide_eq_false in H. intros [v Hv]. apply H. exists v.
    by eapply lookup_weaken.
Qed.

Lemma is_directory_exists (p : string) (w : world) :
  is_directory p w = true -> exists_ p w = true.
Proof.
  unfold is_directory, exists_. rewrite !andb_true_iff, !bool_decide_eq_true.
  intros [? ->]. eauto.
Qed.

Lemma cleanup_entry_subseteq (p : string) (w : world) :
  files (cleanup_entry p w).2 ⊆ files w.
Proof.
  unfold cleanup_entry. destruct (exists_ p w); [|done].
  destruct (is_directory p w); [apply remove_all_subseteq | apply remove_subseteq].
Qed.

Lemma sweep_subseteq (l : list string) (w : world) :
  files (sweep l w) ⊆ files w.
Proof.
  revert w. induction l as [|p l IH]; intros w; simpl; [done|].
  etrans; [apply IH | apply cleanup_entry_subseteq].
Qed.

Lemma sweep_app (l1 l2 : list string) (w : world) :
  sweep (l1 ++ l2)%list w = sweep l2 (sweep l1 w).
Proof. revert w. induction l1 as [|p l1 IH]; intros w; simpl; [done | apply IH]. Qed.

(** An entry whose own removal is not refused is gone, and a directory
    takes everything below it along. *)
Lemma cleanup_entry_ok (p : string) (w w' : world) :
  cleanup_entry p w = (None, w') ->
  exists_ p w' = false /\
  (is_directory p w = true -> forall q, under p q = true -> files w' !! q = None).
Proof.
  unfold cleanup_entry. destruct (exists_ p w) eqn:Hex.
  - destruct (is_directory p w) eqn:Hd.
    + intros H. split; [by apply remove_all_gone in H|].
      intros _ q Hq. unfold remove_all in H.
      fs_step w; [done|].
      assert (exists_ p w0 = true) as Hex0 by (unfold exists_ in *; by rewrite Hf).
      rewrite Hex0 in H. simplify_eq/=. rewrite Hf.
      apply lookup_delete_None. right. unfold outside.
      apply map_lookup_filter_None. right. intros v _. simpl. by rewrite Hq.
    + intros H. split; [by apply remove_gone in H | done].
  - intros ?; simplify_eq. split; [done|].
    intros Hd. apply is_directory_exists in Hd. congruence.
Qed.

End cleanup_facts.

(** ** The pipeline *)

Section install_facts.
Import Fs Discovery Installer.
Context {VM : VersionModel} {CO : Collaborators}.

Lemma unzip_entries_what (d : string) (l : list zip_entry) (w w' : world)
    (e : exception) :
  unzip_entries d l w = (Some e, w') -> what e <> "".
Proof.
  revert w. induction l as [|en l IH]; intros w; simpl; [done|].
  repeat case_match; try apply IH; intros ?; by simplify_eq.
Qed.

(** What [extract_launcher] throws carries a message, and whichever way it
    leaves, the extraction directory is the one path it has added to the
    artifact set. *)
Lemma extract_launcher_exits (ap : string) (ui : update_info)
    (u : update_installer) (w : world) :
  let out := extract_launcher ap ui u w in
  out.1.2 = push_back (join (download_dir_ u) "launcher_update_extract") u /\
  (forall e, out.1.1 = inl e -> what e <> "").
Proof.
  unfold extract_launcher.
  set (d := join (download_dir_ u) "launcher_update_extract").
  set (w1 := (create_directories d w).2).
  destruct (archive_format_of ap).
  - destruct (extract_zip ap d w1) as [[ex|] w2] eqn:Hz; simpl.
    + split; [done|]. intros ex' ?; simplify_eq. unfold extract_zip in Hz.
      repeat case_match; simplify_eq; try done.
      by eapply unzip_entries_what.
    + repeat case_match; simpl; (split; [done|]); intros ex' ?; by simplify_eq.
  - unfold extract_tar_xz. destruct (system _ w1) as [z w2].
    repeat case_match; simpl; (split; [done|]); intros ex' ?; by simplify_eq.
  - simpl. split; [done|]. intros ex' ?; by simplify_eq.
Qed.

End install_facts.

Section extraction_facts.
Import Fs Discovery Installer.
Context {VM : VersionModel} {CO : Collaborators}.

(** C7, where the code departs from it: an extension that lower-cases to
    [.zip] selects the zip reader whatever its case, and an archive of
    neither format makes [extract_launcher] throw; but the [.tar.xz] test
    compares the file name as it is, so an upper-case [.TAR.XZ] is thrown
    out as unsupported instead of being handed to [tar]. *)
Theorem extract_launcher_dispatch :
  (forall ap, lowercase (extension ap) = ".zip" -> archive_format_of ap = format_zip) /\
  (forall ap ui u w,
     archive_format_of ap = format_unsupported ->
     (extract_launcher ap ui u w).1.1
       = inl (Exception ("unsupported archive format: " +:+ lowercase (extension ap)))) /\
  archive_format_of "/tmp/launcher-2.0.0-x86_64-windows.ZIP" = format_zip /\
  archive_format_of "/tmp/launcher-2.0.0-x86_64-linux-glibc.tar.xz" = format_tar_xz /\
  archive_format_of "/tmp/launcher-2.0.0-x86_64-linux-glibc.TAR.XZ" = format_unsupported /\
  (forall ui u w,
     (extract_launcher "/tmp/launcher-2.0.0-x86_64-linux-glibc.TAR.XZ" ui u w).1.1
       = inl (Exception "unsupported archive format: .xz")).
Proof.
  assert (forall ap ui u w,
            archive_format_of ap = format_unsupported ->
            (extract_launcher ap ui u w).1.1
            = inl (Exception ("unsupported archive format: "
                              +:+ lowercase (extension ap)))) as Hbad.
  { intros ap ui u w H. unfold extract_launcher. by rewrite H. }
  split_and!; [| exact Hbad | reflexivity | reflexivity | reflexivity |].
  - intros ap H. unfold archive_format_of. by rewrite H.
  - intros ui u w. by rewrite Hbad.
Qed.

End extraction_facts.

(** C8, where the code departs from it: [extract_launcher] has the
    extraction directory in the artifact set at every exit, but the archive
    path is added only once [download_archive] has returned; a transfer that
    breaks off after writing part of the archive leaves that file behind,
    although [cleanup] runs. *)
Theorem install_archive_registered_late :
  (forall (VM : Discovery.VersionModel) (CO : Installer.Collaborators) ap ui u w,
     Installer.temp_files_ (Installer.extract_launcher ap ui u w).1.2
     = (Installer.temp_files_ u
          ++ [Fs.join (Installer.download_dir_ u) "launcher_update_extract"])%list) /\
  let out := Installer.install (CO := Scenario.flaky)
               (Scenario.info "launcher-2.0.0-x86_64-linux-glibc.tar.xz")
               Scenario.installer (Scenario.host []) in
  Installer.success out.1.1 = false /\
  Installer.error_message out.1.1 = "connection reset by peer" /\
  Installer.cleanup_calls out.1.2 = 1 /\
  Installer.temp_files_ out.1.2 = [] /\
  Fs.files out.2 !! "/tmp/launcher-2.0.0-x86_64-linux-glibc.tar.xz"
    = Some (Fs.File "arch" false).
Proof.
  split.
  - intros VM CO ap ui u w.
    destruct (extract_launcher_exits ap ui u w) as [-> _]. done.
  - vm_compute. repeat split.
Qed.

(** ** Sample runs *)

(** The Linux asset of a release is found under the Linux profile. *)
Example find_platform_asset_sample :
  Discovery.find_platform_asset Discovery.linux_x64
    (Samples.release "v2.0.0" false false
       [Samples.asset "launcher-2.0.0-x86_64-windows.zip";
        Samples.asset "launcher-2.0.0-x86_64-linux-glibc.tar.xz"])
  = Some (Samples.asset "launcher-2.0.0-x86_64-linux-glibc.tar.xz").
Proof. reflexivity. Qed.

(** A swap with nothing in its way: the new build is at the target and the
    old one at the backup path. *)
Example replace_launcher_sample :
  let out := Installer.replace_launcher (CO := Scenario.posix)
               Scenario.fresh Scenario.target (Scenario.host []) in
  Installer.success out.1 = true /\
  Installer.backup_path out.1 = Installer.backup_path_of Scenario.target /\
  Fs.files out.2 !! Scenario.target = Some (Fs.File "new-build" true) /\
  Fs.files out.2 !! Installer.backup_path_of Scenario.target
    = Some (Fs.File "old-build" true).
Proof. vm_compute. repeat split. Qed.

(** Rename and copy into place both refused: the call fails and the backup
    is renamed back, so the old build is at the target again. *)
Example replace_launcher_restore_sample :
  let out := Installer.replace_launcher (CO := Scenario.posix)
               Scenario.fresh Scenario.target
               (Scenario.host [None; None; None; Some Fs.EXDEV; Some Fs.ENOSPC]) in
  Installer.success out.1 = false /\
  Installer.error_message out.1
    = "failed to install new launcher: No space left on device" /\
  Fs.files out.2 !! Scenario.target = Some (Fs.File "old-build" true) /\
  Fs.files out.2 !! Installer.backup_path_of Scenario.target = None.
Proof. vm_compute. repeat split. Qed.

(** The same failure inside [install]: [rollback] then finds the restored
    build at [installed_path], removes it, and finds no backup to move
    back. *)
Example install_rollback_after_restore_sample :
  let out := Installer.install (CO := Scenario.posix)
               (Scenario.info "launcher-2.0.0-x86_64-linux-glibc.tar.xz")
               Scenario.installer
               (Scenario.host [None; None; None; None; None; None; None;
                               Some Fs.EXDEV; Some Fs.ENOSPC]) in
  Installer.success out.1.1 = false /\
  Installer.error_message out.1.1
    = "failed to install new launcher: No space left on device" /\
  Installer.temp_files_ out.1.2 = [] /\
  Fs.files out.2 !! Scenario.target = None /\
  Fs.files out.2 !! Installer.backup_path_of Scenario.target = None.
Proof. vm_compute. repeat split. Qed.

(** A refused removal does not keep [cleanup] from the next entry. *)
Example cleanup_locked_entry_sample :
  let u := {| Installer.download_dir_ := "/tmp";
              Installer.temp_files_ := [Scenario.target; Scenario.fresh];
              Installer.cleanup_calls := 0 |} in
  let out := Installer.cleanup u (Scenario.host [Some Fs.EBUSY]) in
  Installer.temp_files_ out.1 = [] /\
  Fs.exists_ Scenario.target out.2 = true /\
  Fs.exists_ Scenario.fresh out.2 = false.
Proof. vm_compute. repeat split. Qed.

(** * Further properties of the two sources *)

(** ** Discovery *)

Section discovery_more.
Import Discovery.
Context {VM : VersionModel}.

Lemma scan_assets_app (s e : string) (l1 l : list asset_type) :
  Forall (fun x => asset_matches s e x = false) l1 ->
  scan_assets s e (l1 ++ l)%list = scan_assets s e l.
Proof.
  induction 1 as [|x l1 Hx _ IH]; [done|]. simpl. by rewrite Hx.
Qed.

(** X1: under a platform with a profile, [find_platform_asset] returns the
    first asset, in the order of the release, whose name has the prefix, the
    token and the extension; assets before it that miss one are passed
    over. *)
Theorem find_platform_asset_first
    (p : platform_type) (r : release_type) (s e : string)
    (l1 l2 : list asset_type) (a : asset_type) :
  platform_profile p = Some (s, e) ->
  r_assets r = (l1 ++ a :: l2)%list ->
  (forall x, x ∈ l1 ->
     ~ (Str.starts_with "launcher-" (a_name x) /\
        Str.contains s (a_name x) /\ Str.contains e (a_name x))) ->
  Str.starts_with "launcher-" (a_name a) ->
  Str.contains s (a_name a) ->
  Str.contains e (a_name a) ->
  find_platform_asset p r = Some a.
Proof.
  intros Hp Hl Hl1 H1 H2 H3.
  assert (find_platform_asset p r = scan_assets s e (r_assets r)) as ->.
  { destruct p; simpl in *; by simplify_eq. }
  rewrite Hl, scan_assets_app.
  - simpl. replace (asset_matches s e a) with true; [done|].
    symmetry. by apply asset_matches_iff.
  - apply Forall_forall. intros x Hx.
    destruct (asset_matches s e x) eqn:Hm; [|done].
    apply asset_matches_iff in Hm. by destruct (Hl1 x Hx).
Qed.

Lemma find_platform_asset_Some (p : platform_type) (r : release_type)
    (a : asset_type) :
  find_platform_asset p r = Some a ->
  a ∈ r_assets r /\ Str.starts_with "launcher-" (a_name a).
Proof.
  intros Ha.
  assert (exists s e, scan_assets s e (r_assets r) = Some a) as (s & e & Hs).
  { destruct p; simpl in *; try done; eauto. }
  destruct (scan_assets_Some _ _ _ _ Hs) as (l1 & l2 & Hl & Hm & _).
  apply asset_matches_iff in Hm as (Hpre & _). split; [|done].
  rewrite Hl. apply elem_of_app. right. by left.
Qed.

Lemma starts_with_nonempty (c : ascii) (k s : string) :
  Str.starts_with (String c k) s -> s <> "".
Proof. intros [post ->]. done. Qed.

(** X2: the result of [release_to_update_info] is the empty sentinel exactly
    when its asset name is empty; any other result describes an asset of
    that very release, the one [find_platform_asset] picks, with the tag and
    pre-release flag of the release and a version parsed from the asset name
    or, failing that, from the tag. *)
Theorem release_to_update_info_origin (p : platform_type) (r : release_type) :
  let ui := release_to_update_info p r in
  (ui_asset_name ui = "" <-> ui = update_info_init) /\
  (ui_asset_name ui <> "" ->
   exists a,
     a ∈ r_assets r /\ find_platform_asset p r = Some a /\
     ui_asset_name ui = a_name a /\
     ui_asset_url ui = a_browser_download_url a /\
     ui_asset_size ui = a_size a /\
     ui_tag_name ui = r_tag_name r /\
     ui_release_url ui = r_html_url r /\
     ui_prerelease ui = r_prerelease r /\
     (parse_asset_version (a_name a) = Some (ui_version ui) \/
      parse_asset_version (a_name a) = None /\
      parse_launcher_version (r_tag_name r) = Some (ui_version ui))).
Proof.
  unfold release_to_update_info.
  destruct (find_platform_asset p r) as [a|] eqn:Ha; [|by split].
  destruct (find_platform_asset_Some _ _ _ Ha) as [Hin Hpre].
  apply starts_with_nonempty in Hpre.
  destruct (parse_asset_version (a_name a)) as [v|] eqn:Hv.
  - simpl. split.
    + split; [done|]. intros E. apply (f_equal ui_asset_name) in E. done.
    + intros _. exists a. split_and!; try done. by left.
  - destruct (parse_launcher_version (r_tag_name r)) as [v|] eqn:Ht; [|by split].
    simpl. split.
    + split; [done|]. intros E. apply (f_equal ui_asset_name) in E. done.
    + intros _. exists a. split_and!; try done. by right.
Qed.

Lemma pick_release_Some (incl : bool) (rs : list release_type) (b : release_type) :
  pick_release incl rs = Some b -> b ∈ rs /\ eligible incl b = true.
Proof.
  induction rs as [|i rs IH]; simpl; [done|]. unfold eligible.
  destruct (r_draft i) eqn:Hd.
  - intros H. destruct (IH H) as [Hin He]. split; [by right | done].
  - destruct (incl || negb (r_prerelease i)) eqn:Hp.
    + intros ?; simplify_eq. split; [by left|]. by rewrite Hd, Hp.
    + intros H. destruct (IH H) as [Hin He]. split; [by right | done].
Qed.

Lemma release_to_update_info_prerelease (p : platform_type) (r : release_type) :
  ui_prerelease (release_to_update_info p r) = true -> r_prerelease r = true.
Proof.
  unfold release_to_update_info. repeat case_match; simpl; done.
Qed.

Lemma fetch_latest_release_stable (api_ : registry) (p : platform_type)
    (o r : string) (ui : update_info) :
  fetch_latest_release api_ p false o r = inr ui -> ui_prerelease ui = false.
Proof.
  unfold fetch_latest_release. destruct (api_ o r 20) as [e|rs]; [done|].
  destruct rs as [|i rs]; [by intros ?; simplify_eq|].
  destruct (pick_release false (i :: rs)) as [b|] eqn:Hb; [|by intros ?; simplify_eq].
  intros ?; simplify_eq. apply pick_release_Some in Hb as [_ He].
  unfold eligible in He. simpl in He.
  destruct (ui_prerelease (release_to_update_info p b)) eqn:Hp; [|done].
  apply release_to_update_info_prerelease in Hp. rewrite Hp in He.
  by destruct (r_draft b).
Qed.

End discovery_more.

Section queries_facts.
Import Discovery Queries.
Context {VM : VersionModel} {HD : Headers}.

(** X3: [check_for_update] fails exactly when the registry query fails, and
    with the registry's exception; otherwise it returns the empty sentinel or
    the info [fetch_latest_release] found, and the latter only when that
    info is not empty and its version is greater than the current one; with
    pre-releases excluded the result is never flagged as a pre-release. *)
Theorem check_for_update_strictly_newer
    (api_ : registry) (p : platform_type) (incl : bool) (o r : string)
    (v : launcher_version) :
  (forall e, check_for_update api_ p incl o r v = inl e <-> api_ o r 20 = inl e) /\
  (forall ui,
     check_for_update api_ p incl o r v = inr ui ->
     ui = update_info_init \/
     (fetch_latest_release api_ p incl o r = inr ui /\
      ui_empty ui = false /\ version_gt (ui_version ui) v = true)) /\
  (incl = false ->
   forall ui, check_for_update api_ p incl o r v = inr ui -> ui_prerelease ui = false).
Proof.
  split_and!.
  - intros e. unfold check_for_update, fetch_latest_release.
    destruct (api_ o r 20) as [e'|rs]; [split; intros ?; by simplify_eq|].
    split; [|done]. repeat case_match; done.
  - intros ui. unfold check_for_update.
    destruct (fetch_latest_release api_ p incl o r) as [e|ui'] eqn:Hf; [done|].
    destruct (ui_empty ui') eqn:He; [intros ?; simplify_eq; by left|].
    destruct (version_gt (ui_version ui') v) eqn:Hv; intros ?; simplify_eq;
      [by right | by left].
  - intros -> ui. unfold check_for_update.
    destruct (fetch_latest_release api_ p false o r) as [e|ui'] eqn:Hf; [done|].
    apply fetch_latest_release_stable in Hf.
    repeat case_match; intros ?; by simplify_eq.
Qed.

(** X4: [fetch_release_by_tag] applies no filter: a release the registry
    returns for the tag is converted whether or not it is a draft or a
    pre-release, and the result is the one [fetch_latest_release] gives for
    any batch in which that release is the first eligible one. *)
Theorem fetch_release_by_tag_unfiltered
    (api_ : tag_registry) (p : platform_type) (o r t : string)
    (rel : release_type) :
  api_ o r t = inr rel ->
  rel_empty rel = false ->
  fetch_release_by_tag api_ p o r t = inr (release_to_update_info p rel) /\
  (forall (reg : registry) incl l1 l2,
     reg o r 20 = inr (l1 ++ rel :: l2)%list ->
     Forall (fun i => eligible incl i = false) l1 ->
     eligible incl rel = true ->
     fetch_latest_release reg p incl o r = fetch_release_by_tag api_ p o r t).
Proof.
  intros Hapi He.
  assert (fetch_release_by_tag api_ p o r t = inr (release_to_update_info p rel)) as Hft.
  { unfold fetch_release_by_tag. by rewrite Hapi, He. }
  split; [done|]. intros reg incl l1 l2 Hreg Hl1 Hrel. rewrite Hft.
  unfold fetch_latest_release. rewrite Hreg.
  rewrite (pick_release_skips _ _ _ Hl1), (pick_release_head _ _ _ Hrel).
  by destruct l1.
Qed.

End queries_facts.

(** The Windows asset comes first in the release and is passed over under
    the Linux profile. *)
Lemma find_platform_asset_first_witness :
  Discovery.find_platform_asset Discovery.linux_x64
    (Samples.release "v2.0.0" false false
       [Samples.asset "launcher-2.0.0-x86_64-windows.zip";
        Samples.asset "launcher-2.0.0-x86_64-linux-glibc.tar.xz"])
  = Some (Samples.asset "launcher-2.0.0-x86_64-linux-glibc.tar.xz").
Proof.
  apply (find_platform_asset_first Discovery.linux_x64
           (Samples.release "v2.0.0" false false
              [Samples.asset "launcher-2.0.0-x86_64-windows.zip";
               Samples.asset "launcher-2.0.0-x86_64-linux-glibc.tar.xz"])
           "x86_64-linux-glibc" ".tar.xz"
           [Samples.asset "launcher-2.0.0-x86_64-windows.zip"] []
           (Samples.asset "launcher-2.0.0-x86_64-linux-glibc.tar.xz")
           eq_refl eq_refl).
  - intros x Hx. apply list_elem_of_singleton in Hx as ->.
    intros (_ & Htok & _). apply find_contains in Htok. by vm_compute in Htok.
  - by exists "2.0.0-x86_64-linux-glibc.tar.xz".
  - by exists "launcher-2.0.0-", ".tar.xz".
  - by exists "launcher-2.0.0-x86_64-linux-glibc", "".
Defined.

(** A draft looked up by its tag is converted all the same. *)
Lemma fetch_release_by_tag_unfiltered_witness :
  Queries.fetch_release_by_tag (HD := Scenario2.headers) Scenario2.by_tag
    Discovery.linux_x64 "iw4x" "launcher" "v3.0.0"
  = inr (Discovery.release_to_update_info (VM := Samples.versions) Discovery.linux_x64
           (Samples.release "v3.0.0" true false
              [Samples.asset "launcher-3.0.0-x86_64-linux-glibc.tar.xz"])).
Proof.
  apply (fetch_release_by_tag_unfiltered (HD := Scenario2.headers) Scenario2.by_tag
           Discovery.linux_x64 "iw4x" "launcher" "v3.0.0" _ eq_refl eq_refl).
Defined.

(** ** The replacement engine, beyond the fallback ladder *)

Section replace_more.
Import Fs Discovery Installer.
Context {VM : VersionModel} {CO : Collaborators}.

Lemma backup_not_under_target (t : string) : under t (backup_path_of t) = false.
Proof. unfold under, backup_path_of. by rewrite prefix_append_head. Qed.

Lemma backup_not_under_staging (t : string) :
  under (staging_path t) (backup_path_of t) = false.
Proof.
  unfold under, staging_path, backup_path_of.
  by rewrite append_assoc, prefix_append_head.
Qed.

Lemma exists_lookup (p : string) (w w' : world) :
  files w' !! p = files w !! p -> exists_ p w' = exists_ p w.
Proof. unfold exists_. by intros ->. Qed.

Lemma stage_new_binary_frame (nb t q : string) (r : update_result) (w : world) :
  q <> staging_path t ->
  files (stage_new_binary nb t r w).2 !! q = files w !! q.
Proof.
  intros Hq. unfold stage_new_binary.
  pose proof (copy_file_other nb (staging_path t) q w Hq) as Hc.
  destruct (copy_file nb (staging_path t) w) as [[ec|] w1]; simpl in *; [done|].
  destruct win32; [done|]. by rewrite permissions_other.
Qed.

Lemma backup_current_frame (t q : string) (r : update_result) (w : world) :
  q <> t -> q <> backup_path_of t -> q <> staging_path t ->
  under t q = false -> under (backup_path_of t) q = false ->
  files (backup_current t r w).2 !! q = files w !! q.
Proof.
  intros Ht Hb Hs Hut Hub. unfold backup_current.
  destruct (exists_ t w); [|done].
  set (w1 := if exists_ (backup_path_of t) w
             then (remove (backup_path_of t) w).2 else w).
  assert (files w1 !! q = files w !! q) as <-.
  { subst w1. destruct (exists_ (backup_path_of t) w); [|done]. by apply remove_other. }
  pose proof (rename_other t (backup_path_of t) q w1 Ht Hb Hut Hub) as Hr.
  destruct (rename t (backup_path_of t) w1) as [[e|] w2]; simpl in *; [|done].
  pose proof (copy_file_other t (backup_path_of t) q w2 Hb) as Hc.
  destruct (copy_file t (backup_path_of t) w2) as [[e2|] w3]; simpl in *.
  - by rewrite remove_other, Hc, Hr.
  - by rewrite Hc, Hr.
Qed.

Lemma install_staged_frame (t q : string) (r : update_result) (w : world) :
  q <> t -> q <> backup_path_of t -> q <> staging_path t ->
  under t q = false -> under (backup_path_of t) q = false ->
  under (staging_path t) q = false ->
  files (install_staged t r w).2 !! q = files w !! q.
Proof.
  intros Ht Hb Hs Hut Hub Hus. unfold install_staged.
  pose proof (rename_other (staging_path t) t q w Hs Ht Hus Hut) as Hr.
  destruct (rename (staging_path t) t w) as [[e|] w1]; simpl in *; [|done].
  pose proof (copy_file_other (staging_path t) t q w1 Ht) as Hc.
  destruct (copy_file (staging_path t) t w1) as [[e2|] w2]; simpl in *.
  - destruct (_ && _); [|by rewrite Hc, Hr].
    by rewrite (rename_other (backup_path_of t) t q w2 Hb Ht Hub Hut), Hc, Hr.
  - by rewrite remove_other, Hc, Hr.
Qed.

(** X5: [replace_launcher] changes nothing but the target, its staging file
    and its backup (and what lies below them): every other path, the new
    binary it copies from among them, holds after the call what it held
    before, on success and on every failure. *)
Theorem replace_launcher_frame (nb t q : string) (w : world) :
  q <> t -> q <> backup_path_of t -> q <> staging_path t ->
  under t q = false -> under (backup_path_of t) q = false ->
  under (staging_path t) q = false ->
  files (replace_launcher nb t w).2 !! q = files w !! q.
Proof.
  intros Ht Hb Hs Hut Hub Hus. unfold replace_launcher.
  set (r0 := with_installed_path t update_result_init).
  pose proof (stage_new_binary_frame nb t q r0 w Hs) as H1.
  destruct (stage_new_binary nb t r0 w) as [[r1|r'] w1]; simpl in *; [|done].
  pose proof (backup_current_frame t q r1 w1 Ht Hb Hs Hut Hub) as H2.
  destruct (backup_current t r1 w1) as [[r2|r'] w2]; simpl in *.
  - by rewrite install_staged_frame, H2, H1.
  - by rewrite H2, H1.
Qed.

Lemma backup_current_Next_staging (t : string) (r r2 : update_result) (w w2 : world) :
  backup_current t r w = (Next r2, w2) ->
  files w2 !! staging_path t = files w !! staging_path t.
Proof.
  unfold backup_current. destruct (exists_ t w); [|by intros ?; simplify_eq].
  set (w1 := if exists_ (backup_path_of t) w
             then (remove (backup_path_of t) w).2 else w).
  assert (files w1 !! staging_path t = files w !! staging_path t) as <-.
  { subst w1. destruct (exists_ (backup_path_of t) w); [|done].
    apply remove_other, staging_backup_neq. }
  pose proof (rename_other t (backup_path_of t) (staging_path t) w1
                (staging_neq t) (staging_backup_neq t)
                (staging_not_under_target t) (staging_not_under_backup t)) as Hr.
  destruct (rename t (backup_path_of t) w1) as [[e|] w2']; simpl in *.
  - pose proof (copy_file_other t (backup_path_of t) (staging_path t) w2'
                  (staging_backup_neq t)) as Hc.
    destruct (copy_file t (backup_path_of t) w2') as [[e2|] w3]; [done|].
    intros ?; simplify_eq. simpl in Hc. by rewrite Hc, Hr.
  - by intros ?; simplify_eq.
Qed.

(** Where a successful swap leaves the new binary. *)
Lemma replace_launcher_success_target (nb t : string) (w w' : world)
    (r : update_result) :
  replace_launcher nb t w = (r, w') ->
  success r = true ->
  exists d x y,
    files w !! nb = Some (File d x) /\ files w' !! t = Some (File d y).
Proof.
  unfold replace_launcher.
  destruct (stage_new_binary nb t _ w) as [[r1|r1] w1] eqn:Hs.
  2: { destruct (stage_new_binary_Return _ _ _ _ _ _ Hs) as (m & -> & _).
       intros ?; simplify_eq. done. }
  destruct (stage_new_binary_Next _ _ _ _ _ _ Hs) as (-> & (d & x & y & Hnb & Hst) & _).
  destruct (backup_current t _ w1) as [[r2|r2] w2] eqn:Hb.
  2: { destruct (backup_current_Return _ _ _ _ _ Hb) as (m & -> & _).
       intros ?; simplify_eq. done. }
  pose proof (backup_current_Next_staging _ _ _ _ _ Hb) as Hst2.
  rewrite Hst in Hst2.
  assert (success r2 = false) as Hsucc.
  { destruct (backup_current_Next _ _ _ _ _ Hb) as [(_ & Er & _)|(_ & Er & _)];
      by subst r2. }
  unfold install_staged.
  destruct (rename (staging_path t) t w2) as [[e|] w3] eqn:Hr.
  - destruct (copy_file (staging_path t) t w3) as [[e2|] w4] eqn:Hc.
    { intros Heq. injection Heq as <- <-. simpl. congruence. }
    intros Heq _. injection Heq as <- <-.
    apply copy_file_ok in Hc as (d' & x' & Hd' & Hw4).
    rewrite (rename_error _ _ _ _ _ Hr), Hst2 in Hd'. injection Hd' as <- <-.
    exists d, x, y. split; [done|].
    rewrite remove_other by (intros E; by apply (staging_neq t)).
    by rewrite Hw4, lookup_insert_eq.
  - intros Heq _. injection Heq as <- <-.
    exists d, x, y. split; [done|]. apply rename_ok in Hr. by rewrite Hr.
Qed.

(** X7: a successful [replace_launcher] has put the bytes of the new binary
    at the target, whichever of rename and copy got them there.  If the
    target existed before, the result names [T.backup] and that path holds
    what the target held; if it did not, no backup is recorded. *)
Theorem replace_launcher_success (nb t : string) (w w' : world) (r : update_result) :
  replace_launcher nb t w = (r, w') ->
  success r = true ->
  installed_path r = t /\
  error_message r = "" /\
  (exists d x y,
     files w !! nb = Some (File d x) /\ files w' !! t = Some (File d y)) /\
  (exists_ t w = true ->
     backup_path r = backup_path_of t /\
     files w' !! backup_path_of t = files w !! t) /\
  (exists_ t w = false -> backup_path r = "").
Proof.
  unfold replace_launcher.
  destruct (stage_new_binary nb t _ w) as [[r1|r1] w1] eqn:Hs.
  2: { destruct (stage_new_binary_Return _ _ _ _ _ _ Hs) as (m & -> & _).
       intros ?; simplify_eq. done. }
  destruct (stage_new_binary_Next _ _ _ _ _ _ Hs) as (-> & (d & x & y & Hnb & Hst) & Hfr).
  assert (exists_ t w1 = exists_ t w) as Hex.
  { apply exists_lookup, Hfr. intros E. by apply (staging_neq t). }
  destruct (backup_current t _ w1) as [[r2|r2] w2] eqn:Hb.
  2: { destruct (backup_current_Return _ _ _ _ _ Hb) as (m & -> & _).
       intros ?; simplify_eq. done. }
  pose proof (backup_current_Next_staging _ _ _ _ _ Hb) as Hst2.
  rewrite Hst in Hst2.
  assert (installed_path r2 = t /\ error_message r2 = "" /\ success r2 = false /\
          (exists_ t w = true ->
             backup_path r2 = backup_path_of t /\
             files w2 !! backup_path_of t = files w !! t) /\
          (exists_ t w = false -> backup_path r2 = ""))
    as (Hip & Hem & Hsucc & Hyes & Hno).
  { destruct (backup_current_Next _ _ _ _ _ Hb) as [(Hx & Er & Ew)|(Hx & Er & Hbk)];
      subst r2.
    - split_and!; [done | done | done | congruence | done].
    - split_and!; [done | done | done | | congruence].
      intros _. split; [done|]. rewrite Hbk. apply Hfr.
      intros E. by apply (staging_neq t). }
  unfold install_staged.
  destruct (rename (staging_path t) t w2) as [[e|] w3] eqn:Hr.
  - destruct (copy_file (staging_path t) t w3) as [[e2|] w4] eqn:Hc.
    { intros Heq. injection Heq as <- <-. simpl. congruence. }
    intros Heq _. injection Heq as <- <-. simpl.
    apply copy_file_ok in Hc as (d' & x' & Hd' & Hw4).
    rewrite (rename_error _ _ _ _ _ Hr), Hst2 in Hd'. injection Hd' as <- <-.
    split_and!; [done | done | | |done].
    + exists d, x, y. split; [done|].
      rewrite remove_other by (intros E; by apply (staging_neq t)).
      by rewrite Hw4, lookup_insert_eq.
    + intros Hx. destruct (Hyes Hx) as [Hbp Hbk]. split; [done|].
      rewrite remove_other by (intros E; by apply (staging_backup_neq t)).
      rewrite Hw4, lookup_insert_ne by (intros E; by apply (backup_neq t)).
      by rewrite (rename_error _ _ _ _ _ Hr).
  - intros Heq _. injection Heq as <- <-. simpl.
    split_and!; [done | done | | |done].
    + exists d, x, y. split; [done|]. apply rename_ok in Hr. by rewrite Hr.
    + intros Hx. destruct (Hyes Hx) as [Hbp Hbk]. split; [done|].
      rewrite <- Hbk.
      pose proof (rename_other (staging_path t) t (backup_path_of t) w2) as Hro.
      rewrite Hr in Hro. apply Hro.
      * intros E. by apply (staging_backup_neq t).
      * apply backup_neq.
      * apply backup_not_under_staging.
      * apply backup_not_under_target.
Qed.

End replace_more.

(** ** Rollback and cleanup *)

Section rollback_facts.
Import Fs Discovery Installer.
Context {VM : VersionModel} {CO : Collaborators}.




Lemma remove_all_other (p q : string) (w : world) :
  q <> p -> under p q = false -> files (remove_all p w).2 !! q = files w !! q.
Proof.
  intros Hq Hu. unfold remove_all. fs_step w; repeat case_match; simpl;
    rewrite <- ?Hf; try done.
  by rewrite lookup_delete_ne, outside_lookup.
Qed.

Lemma cleanup_entry_other (p q : string) (w : world) :
  q <> p -> under p q = false -> files (cleanup_entry p w).2 !! q = files w !! q.
Proof.
  intros Hq Hu. unfold cleanup_entry. destruct (exists_ p w); [|done].
  destruct (is_directory p w); [by apply remove_all_other | by apply remove_other].
Qed.

Lemma sweep_other (l : list string) (q : string) (w : world) :
  Forall (fun p => q <> p /\ under p q = false) l ->
  files (sweep l w) !! q = files w !! q.
Proof.
  intros Hl. revert w. induction Hl as [|p l [Hq Hu] _ IH]; intros w; simpl; [done|].
  by rewrite IH, cleanup_entry_other.
Qed.

(** X9: [cleanup] touches only the registered paths and what lies below
    them: a path that is neither in the artifact set nor below one of its
    entries holds afterwards what it held before, whatever removals were
    refused on the way.  The backup of a swap is such a path. *)
Theorem cleanup_frame (u : update_installer) (w : world) (q : string) :
  Forall (fun p => q <> p /\ under p q = false) (temp_files_ u) ->
  files (cleanup u w).2 !! q = files w !! q.
Proof. intros Hl. simpl. by apply sweep_other. Qed.

End rollback_facts.

(** ** Extraction *)

Section extraction_more.
Import Fs Discovery Installer Paths.
Context {VM : VersionModel} {CO : Collaborators}.

Lemma find_binary_Some (l : list (string * node)) (p : string) :
  find_binary l = Some p ->
  exists n, (p, n) ∈ l /\ is_regular n = true /\ filename p ∈ bns.
Proof.
  induction l as [|[q n] l IH]; simpl; [done|].
  destruct (is_regular n) eqn:Hn; simpl.
  - case_bool_decide as Hq.
    + intros ?; simplify_eq. exists n. split_and!; [by left | done | done].
    + intros H. destruct (IH H) as (n' & Hin & ?). exists n'. split; [by right | done].
  - intros H. destruct (IH H) as (n' & Hin & ?). exists n'. split; [by right | done].
Qed.


Lemma under_nonempty (d q : string) : under d q = true -> q <> "".
Proof.
  unfold under. intros H ->. apply prefix_app_iff in H as [post H].
  destruct d; discriminate.
Qed.

Lemma unzip_entries_throws (d : string) (l : list zip_entry) (w w' : world)
    (e : exception) :
  unzip_entries d l w = (Some e, w') ->
  exists en name,
    en ∈ l /\ ze_stat en = Some name /\ ze_is_directory en = false /\
    what e = "failed to extract: " +:+ name.
Proof.
  revert w. induction l as [|en l IH]; intros w; simpl; [done|].
  destruct (ze_stat en) as [name|] eqn:Hs.
  2: { intros H. destruct (IH _ H) as (en' & n' & Hin & ?).
       exists en', n'. split; [by right | done]. }
  destruct (ze_is_directory en) eqn:Hd.
  { intros H. destruct (IH _ H) as (en' & n' & Hin & ?).
    exists en', n'. split; [by right | done]. }
  destruct (ze_data en) as [data|].
  - destruct (write_file _ data _) as [[ec|] w2].
    + intros ?; simplify_eq. exists en, name. split_and!; [by left | done | done | done].
    + intros H. destruct (IH _ H) as (en' & n' & Hin & ?).
      exists en', n'. split; [by right | done].
  - intros ?; simplify_eq. exists en, name. split_and!; [by left | done | done | done].
Qed.

(** What [extract_launcher] hands back is there. *)
Lemma extract_launcher_found (ap : string) (ui : update_info)
    (u u' : update_installer) (w w' : world) (b : string) :
  extract_launcher ap ui u w = (inr b, u', w') ->
  under (join (download_dir_ u) "launcher_update_extract") b = true /\
  exists_ b w' = true.
Proof.
  unfold extract_launcher.
  set (d := join (download_dir_ u) "launcher_update_extract").
  destruct (match archive_format_of ap with
            | format_zip => _ | format_tar_xz => _ | format_unsupported => _
            end) as [[ex|] w2]; [done|].
  destruct (is_directory d w2); [|done].
  destruct (find_binary (entries_below d w2)) as [p|] eqn:Hf; [|done].
  intros ?; simplify_eq.
  apply find_binary_Some in Hf as (n & Hin & _ & _).
  unfold entries_below in Hin. apply elem_of_map_to_list in Hin.
  unfold subtree in Hin. apply map_lookup_filter_Some in Hin as [Hl Hu].
  simpl in Hu. split; [done|].
  apply exists_Some. split; [by eapply under_nonempty | by rewrite Hl].
Qed.






End extraction_more.

Section unzip_facts.
Import Fs Discovery Installer.
Context {VM : VersionModel} {CO : Collaborators}.

Lemma create_directories_keeps_file (p q d : string) (x : bool) (w : world) :
  files w !! q = Some (File d x) ->
  files (create_directories p w).2 !! q = Some (File d x).
Proof.
  intros Hq. unfold create_directories. fs_step w; repeat case_match; simpl;
    rewrite ?Hf; try done.
  rewrite lookup_insert_ne; [done|]. intros ->. rewrite Hf in *. congruence.
Qed.

Lemma write_file_keeps_regular (p data q : string) (w : world) :
  (exists d x, files w !! q = Some (File d x)) ->
  exists d x, files (write_file p data w).2 !! q = Some (File d x).
Proof.
  intros (d & x & Hq). unfold write_file. fs_step w; repeat case_match; simpl;
    rewrite ?Hf; eauto.
  all: destruct (decide (p = q)) as [->|Hne];
    [rewrite lookup_insert_eq | rewrite lookup_insert_ne by done]; eauto.
Qed.

Lemma write_file_ok (p data : string) (w w' : world) :
  write_file p data w = (None, w') -> exists x, files w' !! p = Some (File data x).
Proof.
  unfold write_file. fs_step w; intros ?; repeat case_match; simplify_eq; simpl;
    rewrite lookup_insert_eq; eauto.
Qed.

Lemma unzip_entries_keeps_regular (d q : string) (l : list zip_entry) (w : world) :
  (exists data x, files w !! q = Some (File data x)) ->
  exists data x, files (unzip_entries d l w).2 !! q = Some (File data x).
Proof.
  revert w. induction l as [|en l IH]; intros w Hq; simpl; [done|].
  destruct (ze_stat en) as [name|]; [|by apply IH].
  destruct (ze_is_directory en); [by apply IH|].
  assert (exists data x,
            files (create_directories (parent_path (join d name)) w).2 !! q
            = Some (File data x)) as Hq1.
  { destruct Hq as (data & x & Hq). exists data, x.
    by apply create_directories_keeps_file. }
  destruct (ze_data en) as [data|]; [|done].
  pose proof (write_file_keeps_regular (join d name) data q _ Hq1) as Hq2.
  destruct (write_file (join d name) data _) as [[ec|] w2]; simpl in *; [done|].
  by apply IH.
Qed.

(** X11: the zip loop treats an entry whose stat fails, or that is a
    directory, as if it were not in the archive.  When the loop ends without
    throwing, every other entry is a regular file at its place below the
    extraction directory; when it throws, the message names an entry of the
    archive that was to be extracted. *)
Theorem unzip_entries_extracts (d : string) (l : list zip_entry) (w w' : world)
    (res : option exception) :
  unzip_entries d l w = (res, w') ->
  unzip_entries d
    (filter (fun en => is_Some (ze_stat en) /\ ze_is_directory en = false) l) w
    = (res, w') /\
  (res = None ->
   forall en name,
     en ∈ l -> ze_stat en = Some name -> ze_is_directory en = false ->
     exists data x, files w' !! join d name = Some (File data x)) /\
  (forall e, res = Some e ->
     exists en name,
       en ∈ l /\ ze_stat en = Some name /\ ze_is_directory en = false /\
       what e = "failed to extract: " +:+ name).
Proof.
  intros H. split_and!.
  - rewrite <- H. clear H. revert w. induction l as [|en l IH]; intros w; [done|].
    rewrite filter_cons. simpl.
    destruct (ze_stat en) as [name|] eqn:Hs.
    2: { rewrite decide_False; [apply IH|]. intros [[? ?] _]. done. }
    destruct (ze_is_directory en) eqn:Hd.
    { rewrite decide_False; [apply IH|]. intros [_ ?]. done. }
    rewrite decide_True by (split; [by eexists | done]).
    simpl. rewrite Hs, Hd. repeat case_match; done || apply IH.
  - intros ->. revert w H. induction l as [|en l IH]; intros w H en' name Hin Hs Hd.
    { by apply elem_of_nil in Hin. }
    simpl in H. apply elem_of_cons in Hin as [->|Hin].
    + rewrite Hs, Hd in H.
      destruct (ze_data en) as [data|]; [|done].
      destruct (write_file (join d name) data _) as [[ec|] w2] eqn:Hw; [done|].
      apply write_file_ok in Hw as [x Hx].
      pose proof (unzip_entries_keeps_regular d (join d name) l w2
                    (ex_intro _ data (ex_intro _ x Hx))) as Hk.
      by rewrite H in Hk.
    + destruct (ze_stat en) as [n0|]; [|by eapply IH].
      destruct (ze_is_directory en); [by eapply IH|].
      destruct (ze_data en) as [data|]; [|done].
      destruct (write_file (join d n0) data _) as [[ec|] w2]; [done|].
      by eapply IH.
  - intros e ->. by eapply unzip_entries_throws.
Qed.

End unzip_facts.

(** ** Archive names and the paths of a swap *)

Section name_facts.
Import Fs Discovery Installer.

Lemma after_last_app_Some (c : ascii) (a b r : string) :
  after_last c b = Some r -> after_last c (a +:+ b) = Some r.
Proof.
  intros Hb. induction a as [|x a IH]; [done|].
  rewrite append_cons. simpl. by rewrite IH.
Qed.

(** Cutting a string at a position within it. *)
Lemma substring_cut (n : nat) (s : string) :
  n <= String.length s ->
  exists a b, s = a +:+ b /\ String.length a = n /\
              forall m, String.substring n m s = String.substring 0 m b.
Proof.
  revert s. induction n as [|n IH]; intros s Hn.
  - by exists "", s.
  - destruct s as [|x s]; [simpl in Hn; lia|]. simpl in Hn.
    destruct (IH s) as (a & b & -> & Hl & Hsub); [lia|].
    exists (String x a), b. split_and!; [done | by simpl; rewrite Hl | done].
Qed.

Lemma substring_whole (b : string) : String.substring 0 (String.length b) b = b.
Proof.
  rewrite <- (append_nil_r b) at 2. apply substring_head.
Qed.

(** X12: [extract_launcher] takes the tar branch exactly for a file name
    that ends in the lower-case [.tar.xz] after at least one other
    character; such a name never selects the zip branch. *)
Theorem archive_format_tar_xz (ap : string) :
  archive_format_of ap = format_tar_xz <->
  exists stem, stem <> "" /\ filename ap = stem +:+ ".tar.xz".
Proof.
  unfold archive_format_of. split.
  - case_bool_decide as Hzip; [done|].
    destruct ((7 <? String.length (filename ap))%nat) eqn:Hlen; [|done]. simpl.
    case_bool_decide as Hsuf; [|done]. intros _.
    apply Nat.ltb_lt in Hlen.
    destruct (substring_cut (String.length (filename ap) - 7) (filename ap))
      as (a & b & Hf & Hla & Hsub); [lia|].
    exists a. split.
    + intros ->. simpl in Hla. lia.
    + unfold Str.substr in Hsuf. rewrite Hsub in Hsuf.
      assert (String.length b = 7) as Hlb.
      { apply (f_equal String.length) in Hf. rewrite length_append in Hf. lia. }
      rewrite <- Hlb, substring_whole in Hsuf. by rewrite Hf at 1; rewrite Hsuf.
  - intros (stem & Hne & Hf).
    assert (lowercase (extension ap) = ".xz") as Hext.
    { unfold extension. rewrite Hf. destruct stem as [|c stem']; [done|].
      rewrite append_cons.
      rewrite (bool_decide_eq_false_2 (String c (stem' +:+ ".tar.xz") = ".")).
      2: { intros E. apply (f_equal String.length) in E. simpl in E.
           rewrite length_append in E. simpl in E. lia. }
      rewrite (bool_decide_eq_false_2 (String c (stem' +:+ ".tar.xz") = "..")).
      2: { intros E. apply (f_equal String.length) in E. simpl in E.
           rewrite length_append in E. simpl in E. lia. }
      simpl. by rewrite (after_last_app_Some "."%char stem' ".tar.xz" "xz"). }
    rewrite Hext. rewrite bool_decide_eq_false_2 by done.
    assert (String.length (filename ap) = String.length stem + 7) as Hlen.
    { by rewrite Hf, length_append. }
    assert (0 < String.length stem) by (destruct stem; [done | simpl; lia]).
    replace (7 <? String.length (filename ap))%nat with true
      by (symmetry; apply Nat.ltb_lt; lia).
    simpl. rewrite bool_decide_eq_true_2; [done|].
    unfold Str.substr. rewrite Hlen.
    replace (String.length stem + 7 - 7) with (String.length stem) by lia.
    rewrite Hf. rewrite <- (append_nil_r ".tar.xz") at 1.
    exact (substring_middle stem ".tar.xz" "").
Qed.

Lemma before_last_app (c : ascii) (t k : string) :
  before_last c k = None -> before_last c (t +:+ k) = before_last c t.
Proof.
  intros Hk. induction t as [|x t IH]; [done|].
  rewrite append_cons. simpl. by rewrite IH.
Qed.

Lemma after_last_app_None (c : ascii) (t k : string) :
  after_last c k = None ->
  after_last c (t +:+ k) = (fun r => r +:+ k) <$> after_last c t.
Proof.
  intros Hk. induction t as [|x t IH]; [by rewrite append_nil_l, Hk|].
  rewrite append_cons. simpl. rewrite IH.
  destruct (after_last c t); simpl; [done|]. by destruct (Ascii.eqb x c).
Qed.

(** X13: for every target the staging path and the backup path differ from
    the target and from each other, lie in the target's own directory, and
    carry the target's file name extended by [.new] and [.backup]; two
    targets never share a staging or a backup path. *)
Theorem staging_and_backup_paths (t : string) :
  staging_path t <> t /\ backup_path_of t <> t /\
  staging_path t <> backup_path_of t /\
  parent_path (staging_path t) = parent_path t /\
  parent_path (backup_path_of t) = parent_path t /\
  filename (staging_path t) = filename t +:+ ".new" /\
  filename (backup_path_of t) = filename t +:+ ".backup" /\
  (forall t', staging_path t' = staging_path t -> t' = t) /\
  (forall t', backup_path_of t' = backup_path_of t -> t' = t).
Proof.
  assert (forall k : string, before_last "/"%char k = None ->
            parent_path (t +:+ k) = parent_path t) as Hpar.
  { intros k Hk. unfold parent_path. by rewrite before_last_app. }
  assert (forall k : string, after_last "/"%char k = None ->
            filename (t +:+ k) = filename t +:+ k) as Hname.
  { intros k Hk. unfold filename. rewrite after_last_app_None by done.
    by destruct (after_last "/" t). }
  assert (forall (k a b : string), a +:+ k = b +:+ k -> a = b) as Hinj.
  { intros k a. induction a as [|x a IH]; intros b E.
    - destruct b as [|y b]; [done|]. apply (f_equal String.length) in E.
      rewrite !length_append in E. simpl in E. lia.
    - destruct b as [|y b].
      + apply (f_equal String.length) in E.
        rewrite !length_append in E. simpl in E. lia.
      + rewrite !append_cons in E. injection E as -> E. f_equal. by apply IH. }
  split_and!.
  - apply staging_neq.
  - apply backup_neq.
  - apply staging_backup_neq.
  - by apply Hpar.
  - by apply Hpar.
  - by apply Hname.
  - by apply Hname.
  - intros t'. apply Hinj.
  - intros t'. apply Hinj.
Qed.

End name_facts.

(** ** The whole pipeline *)

Section pipeline_facts.
Import Fs Discovery Installer.
Context {VM : VersionModel} {CO : Collaborators}.

Lemma under_trans (d b t : string) :
  under d b = true -> under b t = true -> under d t = true.
Proof.
  unfold under. intros H1 H2.
  apply prefix_app_iff in H1 as [r1 ->]. apply prefix_app_iff in H2 as [r2 ->].
  apply prefix_app_iff. exists (r1 +:+ "/" +:+ r2). by rewrite !append_assoc.
Qed.


(** X16: when [install] reports success, the running executable's path
    holds the bytes of the binary that was extracted, and [cleanup] has not
    taken them away, provided that path is neither the archive nor the
    extraction directory nor below one of them. *)
Theorem install_success_installs
    (ui : update_info) (u u2 : update_installer) (w w1 w2 : world) (a b : string) :
  temp_files_ u = [] ->
  download_archive ui u w = (inr a, w1) ->
  extract_launcher a ui (push_back a u) w1 = (inr b, u2, w2) ->
  success (install ui u w).1.1 = true ->
  let t := current_executable_path w2 in
  let d := join (download_dir_ u) "launcher_update_extract" in
  t <> a -> t <> d -> under a t = false -> under d t = false ->
  exists data x y,
    files w2 !! b = Some (File data x) /\
    files (install ui u w).2 !! t = Some (File data y).
Proof.
  intros Hu0 Hd He Hsucc t d Hta Htd Hua Hud.
  pose proof (extract_launcher_exits a ui (push_back a u) w1) as [Hu _].
  destruct (extract_launcher_found _ _ _ _ _ _ _ He) as [Hbd Hex].
  simpl in Hbd. rewrite He in Hu. simpl in Hu. subst u2.
  unfold install in *.
  destruct (update_info_empty ui || Str.empty (ui_asset_url ui)); [done|].
  rewrite Hd, He in *. rewrite Hex in *. simpl in *. fold t in Hsucc |- *.
  destruct (replace_launcher b t w2) as [r1 w3] eqn:Hrl.
  destruct (success r1) eqn:Hs1; simpl in *.
  2: { destruct (rollback r1 w3) as [ok w4]. simpl in Hsucc. congruence. }
  destruct (replace_launcher_success_target _ _ _ _ _ Hrl Hs1)
    as (data & x & y & Hsrc & Hdst).
  exists data, x, y. split; [done|]. rewrite <- Hdst.
  apply sweep_other. rewrite Hu0. simpl.
  repeat constructor; try done.
  - intros ->. fold d in Hbd. congruence.
  - destruct (under b t) eqn:Hbt; [|done]. fold d in Hbd.
    by rewrite (under_trans _ _ _ Hbd Hbt) in Hud.
Qed.

End pipeline_facts.

Section failed_swap.
Import Fs Discovery Installer.
Context {VM : VersionModel} {CO : Collaborators}.


End failed_swap.

(** ** The further properties on the sample hosts *)

(** The unpacked binary is no path of the swap and is still there after
    it. *)
Lemma replace_launcher_frame_witness :
  Fs.files (Installer.replace_launcher (CO := Scenario.posix)
              Scenario.fresh Scenario.target (Scenario.host [])).2 !! Scenario.fresh
  = Some (Fs.File "new-build" false).
Proof.
  rewrite (replace_launcher_frame (CO := Scenario.posix)
             Scenario.fresh Scenario.target Scenario.fresh).
  - vm_compute. reflexivity.
  - vm_compute. discriminate.
  - vm_compute. discriminate.
  - vm_compute. discriminate.
  - vm_compute. reflexivity.
  - vm_compute. reflexivity.
  - vm_compute. reflexivity.
Defined.

(** With nothing in the way the new build is at the target and the old one
    at the backup path. *)
Lemma replace_launcher_success_witness :
  (exists y, Fs.files (Installer.replace_launcher (CO := Scenario.posix)
                         Scenario.fresh Scenario.target (Scenario.host [])).2
             !! Scenario.target = Some (Fs.File "new-build" y)) /\
  Fs.files (Installer.replace_launcher (CO := Scenario.posix)
              Scenario.fresh Scenario.target (Scenario.host [])).2
    !! Installer.backup_path_of Scenario.target = Some (Fs.File "old-build" true).
Proof.
  destruct (replace_launcher_success (CO := Scenario.posix)
              Scenario.fresh Scenario.target (Scenario.host [])
              (Installer.replace_launcher (CO := Scenario.posix)
                 Scenario.fresh Scenario.target (Scenario.host [])).2
              Scenario2.swapped
              ltac:(vm_compute; reflexivity) eq_refl)
    as (_ & _ & (d & x & y & Hsrc & Hdst) & Hbak & _).
  split.
  - exists y. vm_compute in Hsrc. injection Hsrc as <- _. exact Hdst.
  - destruct (Hbak eq_refl) as [_ Hb]. etrans; [exact Hb | vm_compute; reflexivity].
Defined.


(** Sweeping the unpacked binary leaves the installed launcher alone. *)
Lemma cleanup_frame_witness :
  Fs.files (Installer.cleanup
              {| Installer.download_dir_ := "/tmp";
                 Installer.temp_files_ := [Scenario.fresh];
                 Installer.cleanup_calls := 0 |}
              (Scenario.host [])).2 !! Scenario.target
  = Some (Fs.File "old-build" true).
Proof.
  rewrite cleanup_frame; [vm_compute; reflexivity|].
  repeat constructor. vm_compute. discriminate.
Defined.


(** Unpacking the sample zip skips the directory entry and writes the
    launcher. *)
Lemma unzip_entries_extracts_witness :
  exists data x,
    Fs.files (Installer.unzip_entries "/tmp/x" Scenario.zip_sample (Scenario.host [])).2
      !! "/tmp/x/bin/launcher" = Some (Fs.File data x).
Proof.
  destruct (unzip_entries_extracts "/tmp/x" Scenario.zip_sample (Scenario.host [])
              (Installer.unzip_entries "/tmp/x" Scenario.zip_sample (Scenario.host [])).2
              None ltac:(vm_compute; reflexivity)) as (_ & H & _).
  apply (H eq_refl
           {| Installer.ze_stat := Some "bin/launcher";
              Installer.ze_is_directory := false;
              Installer.ze_data := Some "new-build" |} "bin/launcher");
    [|reflexivity|reflexivity].
  right. by left.
Defined.

(** The sample update installs: the new build is at the running
    executable's path when [install] has returned. *)
Lemma install_success_installs_witness :
  exists y,
    Fs.files (Installer.install (CO := Scenario.posix) Scenario2.update
                Scenario.installer (Scenario.host [])).2 !! Scenario.target
    = Some (Fs.File "new-build" y).
Proof.
  destruct (install_success_installs (CO := Scenario.posix) Scenario2.update
              Scenario.installer (Scenario2.extracted []).1.2
              (Scenario.host []) (Scenario2.downloaded []) (Scenario2.extracted []).2
              Scenario2.archive Scenario.fresh
              eq_refl
              ltac:(vm_compute; reflexivity) ltac:(vm_compute; reflexivity)
              ltac:(vm_compute; reflexivity)
              ltac:(vm_compute; discriminate) ltac:(vm_compute; discriminate)
              ltac:(vm_compute; reflexivity) ltac:(vm_compute; reflexivity))
    as (data & x & y & Hsrc & Hdst).
  exists y. vm_compute in Hsrc. injection Hsrc as <- _. exact Hdst.
Defined.


(** * The pipeline with status queries that throw and copies that tear *)

(** ** Status queries and copies *)

Section precise_facts.
Import Fs Discovery Installer.
Context {VM : VersionModel} {CO : Collaborators} {HO : Precise.Host}.



Lemma exists_returns (p : string) (w : world) (b : bool) :
  Precise.exists_ p w = inr b -> b = exists_ p w.
Proof.
  unfold Precise.exists_. destruct (Precise.status_fails p w); [done|].
  by intros ?; simplify_eq.
Qed.

Lemma exists_answers (p : string) (w : world) :
  Precise.status_fails p w = None -> Precise.exists_ p w = inr (exists_ p w).
Proof. unfold Precise.exists_. by intros ->. Qed.

Lemma is_directory_answers (p : string) (w : world) :
  Precise.status_fails p w = None ->
  Precise.is_directory p w = inr (is_directory p w).
Proof. unfold Precise.is_directory. by intros ->. Qed.

(** A copy touches its destination only, also when it fails. *)
Lemma torn_copy_other (from to q : string) (w : world) :
  q <> to -> files (Precise.copy_file from to w).2 !! q = files w !! q.
Proof.
  intros Hq. unfold Precise.copy_file. fs_step w.
  - simpl. repeat case_match; simpl; rewrite ?lookup_insert_ne; congruence.
  - by apply copy_file_other.
Qed.

(** What a failed copy leaves at its destination: what was there, or the
    first bytes of the source. *)
Lemma torn_copy_failed (from to : string) (w w1 : world) (e : errc) :
  Precise.copy_file from to w = (Some e, w1) ->
  files w1 !! to = files w !! to \/
  exists data x k y,
    files w !! from = Some (File data x) /\
    files w1 !! to = Some (File (Str.substr 0 k data) y).
Proof.
  unfold Precise.copy_file. fs_step w.
  - intros ?; simplify_eq. rewrite <- Hf.
    destruct (files w0 !! from) as [[data x|]|] eqn:Hfrom; [|by left..].
    destruct (Precise.torn e w0) as [[k y]|]; [|by left].
    case_match; [by left|]. right. exists data, x, k, y.
    split; [done|]. simpl. by rewrite lookup_insert_eq.
  - intros H. left. apply copy_file_error in H. by rewrite H.
Qed.

End precise_facts.

(** ** The replacement engine when the staging copy fails *)

Section stage_failure.
Import Fs Discovery Installer.
Context {VM : VersionModel} {CO : Collaborators} {HO : Precise.Host}.

(** X6: when the copy to the staging path fails, [replace_launcher] returns
    a failure that names the error and records no backup, and [rollback] on
    it does nothing.  Every path but the staging path holds what it held.
    The staging path holds what it held, or, when the copy had opened it
    before it failed, the first bytes of the new binary: the call returns
    without removing that file. *)
Theorem replace_launcher_stage_failure
    (nb t : string) (w w1 : world) (e : errc) :
  Precise.copy_file nb (staging_path t) w = (Some e, w1) ->
  exists r,
    Precise.replace_launcher nb t w = (inr r, w1) /\
    success r = false /\
    installed_path r = t /\
    backup_path r = "" /\
    error_message r = "failed to copy new binary: " +:+ message e /\
    (forall q, q <> staging_path t -> files w1 !! q = files w !! q) /\
    (files w1 !! staging_path t = files w !! staging_path t \/
     exists data x k y,
       files w !! nb = Some (File data x) /\
       files w1 !! staging_path t = Some (File (Str.substr 0 k data) y)) /\
    Precise.rollback r w1 = (inr false, w1).
Proof.
  intros Hc. eexists. split.
  { unfold Precise.replace_launcher, Precise.stage_new_binary. rewrite Hc. reflexivity. }
  split_and!; try done.
  - intros q Hq. pose proof (torn_copy_other nb (staging_path t) q w Hq) as H.
    by rewrite Hc in H.
  - by eapply torn_copy_failed.
Qed.

End stage_failure.

(** ** Cleanup when a status query throws *)

Section cleanup_precise.
Import Fs Discovery Installer.
Context {VM : VersionModel} {CO : Collaborators} {HO : Precise.Host}.

(** An entry whose status is read is treated as [Installer.cleanup_entry]
    treats it. *)
Lemma precise_cleanup_entry_returns (p : string) (w w1 : world) (ec : option errc) :
  Precise.cleanup_entry p w = (inr ec, w1) -> cleanup_entry p w = (ec, w1).
Proof.
  unfold Precise.cleanup_entry, Precise.exists_, Precise.is_directory, cleanup_entry.
  destruct (Precise.status_fails p w); [done|].
  destruct (exists_ p w); [|by intros ?; simplify_eq].
  destruct (is_directory p w).
  - destruct (remove_all p w). by intros ?; simplify_eq.
  - destruct (remove p w). by intros ?; simplify_eq.
Qed.

Lemma precise_cleanup_entry_answers (p : string) (w : world) :
  Precise.status_fails p w = None ->
  Precise.cleanup_entry p w = (inr (cleanup_entry p w).1, (cleanup_entry p w).2).
Proof.
  intros H.
  unfold Precise.cleanup_entry, Precise.exists_, Precise.is_directory, cleanup_entry.
  rewrite H. destruct (exists_ p w); [|done].
  destruct (is_directory p w); [by destruct (remove_all p w) | by destruct (remove p w)].
Qed.

Lemma precise_cleanup_entry_throws (p : string) (w w1 : world) (ex : exception) :
  Precise.cleanup_entry p w = (inl ex, w1) ->
  w1 = w /\
  exists e, Precise.status_fails p w = Some e /\
            ex = Precise.filesystem_error "status" p e.
Proof.
  unfold Precise.cleanup_entry, Precise.exists_, Precise.is_directory.
  destruct (Precise.status_fails p w) as [e|].
  - intros ?; simplify_eq. split; [done|]. by exists e.
  - destruct (exists_ p w); [|done].
    destruct (is_directory p w); [by destruct (remove_all p w) | by destruct (remove p w)].
Qed.

(** The loop comes to its end exactly as [Installer.sweep] does when every
    status is read. *)
Lemma precise_sweep_returns (l : list string) (w w' : world) :
  Precise.sweep l w = (None, w') -> w' = sweep l w.
Proof.
  revert w. induction l as [|p l IH]; intros w; simpl; [by intros ?; simplify_eq|].
  destruct (Precise.cleanup_entry p w) as [[ex|ec] w1] eqn:He; [done|].
  apply precise_cleanup_entry_returns in He. rewrite He. simpl. apply IH.
Qed.

Lemma precise_sweep_answers (l : list string) (w : world) :
  (forall p w0, p ∈ l -> Precise.status_fails p w0 = None) ->
  Precise.sweep l w = (None, sweep l w).
Proof.
  revert w. induction l as [|p l IH]; intros w Hl; simpl; [done|].
  rewrite precise_cleanup_entry_answers by (apply Hl; by left).
  apply IH. intros q w0 Hq. apply Hl. by right.
Qed.

(** The loop stops at the first entry whose status cannot be read: the
    entries before it have been dealt with, that entry and the ones after
    it have not been touched. *)
Lemma precise_sweep_throws (l : list string) (w w' : world) (ex : exception) :
  Precise.sweep l w = (Some ex, w') ->
  exists l1 p l2 e,
    l = (l1 ++ p :: l2)%list /\ w' = sweep l1 w /\
    Precise.status_fails p w' = Some e /\
    ex = Precise.filesystem_error "status" p e.
Proof.
  revert w. induction l as [|p l IH]; intros w; simpl; [done|].
  destruct (Precise.cleanup_entry p w) as [[ex0|ec] w1] eqn:He.
  - intros ?; simplify_eq.
    apply precise_cleanup_entry_throws in He as (-> & e & Hs & ->).
    by exists [], p, l, e.
  - intros H. apply precise_cleanup_entry_returns in He.
    destruct (IH _ H) as (l1 & q & l2 & e & -> & -> & Hs & ->).
    exists (p :: l1), q, l2, e. simpl. by rewrite He.
Qed.

(** With no removal refused, every attempt succeeds. *)
Lemma next_fault_unforced (w : world) :
  Precise.unforced w ->
  (next_fault w).1 = None /\ Precise.unforced (next_fault w).2.
Proof.
  unfold Precise.unforced, next_fault. destruct (faults w) as [|f fs] eqn:E; simpl.
  - intros _. split; [done|]. rewrite E. constructor.
  - intros H. apply Forall_cons in H as [-> H]. by split.
Qed.

Lemma cleanup_entry_unforced (p : string) (w : world) :
  Precise.unforced w ->
  (cleanup_entry p w).1 = None /\ Precise.unforced (cleanup_entry p w).2.
Proof.
  intros Hw. unfold cleanup_entry.
  destruct (exists_ p w) eqn:Hex; [|done].
  destruct (next_fault_unforced w Hw) as [Hn Hu].
  destruct (is_directory p w) eqn:Hd.
  - unfold remove_all. destruct (next_fault w) as [o w1]. simpl in *. subst o.
    by destruct (negb (exists_ p w1)).
  - unfold remove. pose proof (is_directory_next_fault p w) as Hd1.
    destruct (next_fault w) as [o w1]. simpl in *. subst o.
    rewrite Hd1, Hd. simpl. by destruct (negb (exists_ p w1)).
Qed.

Lemma sweep_unforced (l : list string) (w : world) :
  Precise.unforced w -> Precise.unforced (sweep l w).
Proof.
  revert w. induction l as [|p l IH]; intros w Hw; simpl; [done|].
  apply IH. by apply cleanup_entry_unforced.
Qed.

(** What the loop has done to an entry by the time it ends. *)
Lemma sweep_entry (l1 l2 : list string) (p : string) (w : world) :
  (cleanup_entry p (sweep l1 w)).1 = None ->
  exists_ p (sweep (l1 ++ p :: l2) w) = false /\
  (is_directory p (sweep l1 w) = true ->
   forall q, under p q = true -> files (sweep (l1 ++ p :: l2) w) !! q = None).
Proof.
  rewrite sweep_app. simpl.
  destruct (cleanup_entry p (sweep l1 w)) as [o w'] eqn:He. simpl.
  intros ->. destruct (cleanup_entry_ok _ _ _ He) as [Hgone Hdir].
  pose proof (sweep_subseteq l2 w') as Hsub. split.
  - by eapply exists_subseteq.
  - intros Hd q Hq. eapply lookup_weaken_None; [by apply Hdir | done].
Qed.

End cleanup_precise.
(** C9, where the code departs from it.  Whenever [cleanup] returns, the
    artifact set is empty; an entry that is gone is passed over; each entry
    has had its removal attempted in the state the entries before it left,
    whether or not those attempts were refused, and an entry whose own
    attempt was not refused is gone, a directory with all that is below it;
    with nothing refused every entry is gone; nothing is ever created; and
    a second [cleanup] changes neither the set nor the filesystem.  But
    [cleanup] asks for the status of each entry with the overloads of
    [fs::exists] and [fs::is_directory] that throw: over an entry whose
    status cannot be read it raises, the entries after that one are not
    attempted and the set is not cleared.  On the sample host, where the
    status of the archive cannot be read, the extraction directory and the
    unpacked binary are still there when [cleanup] is left. *)
Theorem cleanup_best_effort :
  (forall (HO : Precise.Host) (u : Installer.update_installer) (w : Fs.world),
     ((forall p w0, p ∈ Installer.temp_files_ u -> Precise.status_fails p w0 = None) ->
      exists u' w', Precise.cleanup u w = (inr tt, u', w')) /\
     (forall u' w',
        Precise.cleanup u w = (inr tt, u', w') ->
        Installer.temp_files_ u' = [] /\
        Fs.files w' ⊆ Fs.files w /\
        (forall l1 p l2,
           Installer.temp_files_ u = (l1 ++ p :: l2)%list ->
           let wp := Installer.sweep l1 w in
           w' = Installer.sweep l2 (Installer.cleanup_entry p wp).2 /\
           (Fs.exists_ p wp = false -> Installer.cleanup_entry p wp = (None, wp)) /\
           ((Installer.cleanup_entry p wp).1 = None ->
            Fs.exists_ p w' = false /\
            (Fs.is_directory p wp = true ->
             forall q, Fs.under p q = true -> Fs.files w' !! q = None))) /\
        (Precise.unforced w ->
         forall p, p ∈ Installer.temp_files_ u -> Fs.exists_ p w' = false) /\
        (Precise.cleanup u' w').1.1 = inr tt /\
        Installer.temp_files_ (Precise.cleanup u' w').1.2 = [] /\
        (Precise.cleanup u' w').2 = w') /\
     (forall ex u' w',
        Precise.cleanup u w = (inl ex, u', w') ->
        Installer.temp_files_ u' = Installer.temp_files_ u /\
        exists l1 p l2 e,
          Installer.temp_files_ u = (l1 ++ p :: l2)%list /\
          w' = Installer.sweep l1 w /\
          Precise.status_fails p w' = Some e /\
          ex = Precise.filesystem_error "status" p e)) /\
  (let out := Precise.cleanup (HO := Scenario3.unreadable)
                Scenario3.loaded Scenario3.unpacked in
   out.1.1 = inl (Precise.filesystem_error "status" Scenario2.archive Fs.EIO) /\
   Installer.temp_files_ out.1.2 = Installer.temp_files_ Scenario3.loaded /\
   Fs.is_directory "/tmp/launcher_update_extract" out.2 = true /\
   Fs.exists_ Scenario.fresh out.2 = true).
Proof.
  split; [|vm_compute; repeat split].
  intros HO u w. split_and!.
  - intros Hr. unfold Precise.cleanup.
    rewrite (precise_sweep_answers _ _ Hr). by eexists _, _.
  - intros u' w'. unfold Precise.cleanup.
    destruct (Precise.sweep (Installer.temp_files_ u) w) as [[ex|] w1] eqn:Hs; [done|].
    intros ?; simplify_eq. apply precise_sweep_returns in Hs. subst w'.
    split_and!; try done.
    + apply sweep_subseteq.
    + intros l1 p l2 Hl. rewrite Hl. split_and!.
      * by rewrite sweep_app.
      * intros H. unfold Installer.cleanup_entry. by rewrite H.
      * apply sweep_entry.
    + intros Hw p Hp. apply list_elem_of_split in Hp as (l1 & l2 & Hl). rewrite Hl.
      apply sweep_entry.
      by apply cleanup_entry_unforced, sweep_unforced.
  - intros ex u' w'. unfold Precise.cleanup.
    destruct (Precise.sweep (Installer.temp_files_ u) w) as [[ex0|] w1] eqn:Hs; [|done].
    intros ?; simplify_eq. split; [done|]. by apply precise_sweep_throws.
Qed.

(** ** The pipeline when status queries throw *)

Section install_precise.
Import Fs Discovery Installer.
Context {VM : VersionModel} {CO : Collaborators} {HO : Precise.Host}.










End install_precise.
Section install_result.
Import Fs Discovery Installer.
Context {VM : VersionModel} {CO : Collaborators} {HO : Precise.Host}.


End install_result.
(** ** The first model inside the second *)

(** On a host whose status queries all answer and whose failing copies have
    written nothing, the functions of [Precise] never throw and return what
    the functions of [Installer] compute. *)
Section agreement.
Import Fs Discovery Installer.
Context {VM : VersionModel} {CO : Collaborators} {HO : Precise.Host}.
Hypothesis Hstatus : forall p w, Precise.status_fails p w = None.
Hypothesis Htorn : forall e w, Precise.torn e w = None.

Lemma precise_copy_file_agrees (from to : string) (w : world) :
  Precise.copy_file from to w = copy_file from to w.
Proof.
  unfold Precise.copy_file. destruct (next_fault w) as [[e|] w1] eqn:E; [|done].
  unfold copy_file. rewrite E, Htorn. by repeat case_match.
Qed.

Lemma precise_rollback_agrees (r : update_result) (w : world) :
  Precise.rollback r w = (inr (rollback r w).1, (rollback r w).2).
Proof.
  unfold Precise.rollback, rollback. destruct (_ || _); [done|].
  rewrite exists_answers by done.
  destruct (if exists_ (installed_path r) w then _ else _) as [[e|] w1]; [done|].
  rewrite exists_answers by done.
  destruct (exists_ (backup_path r) w1); [|done].
  by destruct (rename _ _ w1) as [[e|] w2].
Qed.

Lemma precise_cleanup_agrees (u : update_installer) (w : world) :
  Precise.cleanup u w = (inr tt, (cleanup u w).1, (cleanup u w).2).
Proof.
  unfold Precise.cleanup. by rewrite precise_sweep_answers.
Qed.

Lemma precise_replace_launcher_agrees (nb t : string) (w : world) :
  Precise.replace_launcher nb t w
  = (inr (replace_launcher nb t w).1, (replace_launcher nb t w).2).
Proof.
  unfold Precise.replace_launcher, replace_launcher,
    Precise.stage_new_binary, stage_new_binary.
  rewrite precise_copy_file_agrees.
  destruct (copy_file nb _ w) as [[ec|] w1]; [done|].
  set (w1' := if win32 then w1 else _).
  assert (forall r2 w2,
            Precise.install_staged t r2 w2
            = (inr (install_staged t r2 w2).1, (install_staged t r2 w2).2)) as Hstaged.
  { intros r2 w2. unfold Precise.install_staged, install_staged.
    destruct (rename _ t w2) as [[e|] w3]; [|done].
    rewrite precise_copy_file_agrees.
    destruct (copy_file _ t w3) as [[ec|] w4]; [|done].
    destruct (Str.empty _); [done|]. rewrite exists_answers by done.
    by destruct (exists_ _ w4). }
  unfold Precise.backup_current, backup_current.
  rewrite exists_answers by done.
  destruct (exists_ t w1'); [|by rewrite Hstaged].
  rewrite exists_answers by done.
  destruct (rename t _ _) as [[e|] w2]; [|by rewrite Hstaged].
  rewrite precise_copy_file_agrees.
  destruct (copy_file t _ w2) as [[ec|] w3]; [done | by rewrite Hstaged].
Qed.

Lemma precise_install_agrees (ui : update_info) (u : update_installer) (w : world) :
  Precise.install ui u w
  = (inr (install ui u w).1.1, (install ui u w).1.2, (install ui u w).2).
Proof.
  unfold Precise.install, install, Precise.install_catch, install_catch,
    Precise.cleanup_and_return.
  destruct (_ || _); [done|].
  destruct (download_archive ui u w) as [[e|a] w1].
  { by rewrite precise_cleanup_agrees. }
  destruct (extract_launcher a ui (push_back a u) w1) as [[[e|b] u2] w2].
  { by rewrite precise_cleanup_agrees. }
  rewrite exists_answers by done.
  destruct (exists_ b w2); simpl.
  - rewrite precise_replace_launcher_agrees.
    destruct (replace_launcher b (current_executable_path w2) w2) as [r1 w3]. simpl.
    destruct (success r1); simpl.
    + by rewrite precise_cleanup_agrees.
    + rewrite precise_rollback_agrees. destruct (rollback r1 w3) as [ok w4]. simpl.
      by rewrite precise_cleanup_agrees.
  - by rewrite precise_cleanup_agrees.
Qed.

End agreement.
(** ** The pipeline with throwing status queries on the sample hosts *)



(** With the disk full at the first copy the old build stays where it is,
    and the staging path is either still free or holds the first bytes of
    the new build. *)
Lemma replace_launcher_stage_failure_witness :
  let out := Precise.replace_launcher (CO := Scenario.posix) (HO := Scenario3.tearing)
               Scenario.fresh Scenario.target (Scenario.host [Some Fs.ENOSPC]) in
  Fs.files out.2 !! Scenario.target = Some (Fs.File "old-build" true) /\
  (Fs.files out.2 !! Installer.staging_path Scenario.target = None \/
   exists k y,
     Fs.files out.2 !! Installer.staging_path Scenario.target
     = Some (Fs.File (Str.substr 0 k "new-build") y)).
Proof.
  destruct (replace_launcher_stage_failure (CO := Scenario.posix)
              (HO := Scenario3.tearing) Scenario.fresh Scenario.target
              (Scenario.host [Some Fs.ENOSPC])
              (Precise.copy_file (HO := Scenario3.tearing) Scenario.fresh
                 (Installer.staging_path Scenario.target)
                 (Scenario.host [Some Fs.ENOSPC])).2
              Fs.ENOSPC ltac:(vm_compute; reflexivity))
    as (r & Hrun & _ & _ & _ & _ & Hother & Hst & _).
  intros out. unfold out. rewrite Hrun. cbn [snd]. split.
  - rewrite Hother; [vm_compute; reflexivity | vm_compute; discriminate].
  - destruct Hst as [Hst|(data & x & k & y & Hsrc & Hst)].
    + left. etrans; [exact Hst | vm_compute; reflexivity].
    + right. exists k, y. vm_compute in Hsrc. injection Hsrc as <- _. exact Hst.
Defined.

(** The same failure inside [install]: the three bytes the copy had written
    are still at the staging path when [install] has returned, although
    [cleanup] has run and emptied the set. *)
Example install_torn_staging_sample :
  let out := Precise.install (CO := Scenario.posix) (HO := Scenario3.tearing)
               Scenario2.update Scenario.installer
               (Scenario.host Scenario3.staging_refused) in
  (exists r, out.1.1 = inr r /\ Installer.success r = false /\
             Installer.error_message r
             = "failed to copy new binary: No space left on device") /\
  Installer.temp_files_ out.1.2 = [] /\
  Fs.files out.2 !! Installer.staging_path Scenario.target
    = Some (Fs.File "new" false) /\
  Fs.files out.2 !! Scenario.target = Some (Fs.File "old-build" true).
Proof. vm_compute. split; [eexists; repeat split | repeat split]. Qed.

(** On the host where the status of the archive cannot be read the swap
    goes through, the [cleanup] that follows throws, the handler's
    [cleanup] throws again, and that exception leaves [install]: the new
    build is installed, the caller gets no result, and the archive, the
    extraction directory and the artifact set are as they were. *)
Example install_unreadable_sample :
  let out := Precise.install (CO := Scenario.posix) (HO := Scenario3.unreadable)
               Scenario2.update Scenario.installer (Scenario.host []) in
  out.1.1 = inl (Precise.filesystem_error "status" Scenario2.archive Fs.EIO) /\
  Installer.cleanup_calls out.1.2 = 2 /\
  Installer.temp_files_ out.1.2 = Installer.temp_files_ Scenario3.loaded /\
  Fs.files out.2 !! Scenario.target = Some (Fs.File "new-build" true) /\
  Fs.is_directory "/tmp/launcher_update_extract" out.2 = true.
Proof. vm_compute. repeat split. Qed.
